(** * Batch caption orchestration of FluxYoga ([scripts/batch_caption.py])

    A shallow embedding of [find_image_files], [caption_exists],
    [save_caption], [generate_caption_for_image] and [main].

    Modelling choices:
    - a Python [str] is a list of Unicode code points ([pystr]);
    - the source folder is a single directory whose entries map names to
      files (with their text content) or sub-directories;
    - external effects that the code does not control (the captioning
      process spawned by [subprocess.run], a failing [open]/[write] in
      [save_caption]) are given by an environment record [env];
    - lines printed on stdout are collected as a list of events; writing
      to stdout is taken not to raise, and [logger] output (stderr) is not
      modelled. *)

From Stdlib Require Import String Ascii NArith ZArith Bool Lia List.
From Stdlib Require Import Sorting.Permutation Sorting.Sorted.
Set Warnings "-register-all".
Import ListNotations.
Open Scope N_scope.
Open Scope list_scope.

(** ** Python strings *)

Definition pystr := list N.

(** A Rocq string literal (ASCII) as a Python string. *)
Definition lit (s : string) : pystr :=
  map (fun a => N.of_nat (nat_of_ascii a)) (list_ascii_of_string s).

Fixpoint pystr_eqb (a b : pystr) : bool :=
  match a, b with
  | [], [] => true
  | x :: a', y :: b' => (x =? y) && pystr_eqb a' b'
  | _, _ => false
  end.

(** [s.startswith(p)] *)
Fixpoint startswith (s p : pystr) : bool :=
  match p, s with
  | [], _ => true
  | y :: p', x :: s' => (x =? y) && startswith s' p'
  | _ :: _, [] => false
  end.

(** [p in s] for strings: substring test. *)
Fixpoint contains (s p : pystr) : bool :=
  match s with
  | [] => startswith [] p
  | _ :: s' => startswith s p || contains s' p
  end.

(** [s.replace(old, new)]: every non-overlapping occurrence of a non-empty
    [old], scanning left to right.  [fuel] is at least [length s]. *)
Fixpoint replace_fuel (fuel : nat) (s old new : pystr) : pystr :=
  match fuel with
  | O => s
  | S f =>
      match s with
      | [] => []
      | c :: s' =>
          if startswith s old
          then new ++ replace_fuel f (skipn (length old) s) old new
          else c :: replace_fuel f s' old new
      end
  end.

Definition replace (s old new : pystr) : pystr :=
  replace_fuel (length s) s old new.

(** [str.isspace] for one code point (Python's whitespace set). *)
Definition py_isspace (c : N) : bool :=
  ((9 <=? c) && (c <=? 13)) || ((28 <=? c) && (c <=? 32)) || (c =? 133)
  || (c =? 160) || (c =? 5760) || ((8192 <=? c) && (c <=? 8202))
  || (c =? 8232) || (c =? 8233) || (c =? 8239) || (c =? 8287)
  || (c =? 12288).

Fixpoint lstrip (s : pystr) : pystr :=
  match s with
  | [] => []
  | c :: s' => if py_isspace c then lstrip s' else s
  end.

(** [s.strip()] *)
Definition strip (s : pystr) : pystr := rev (lstrip (rev (lstrip s))).

(** ASCII decimal digit. *)
Definition is_digit (c : N) : bool := (48 <=? c) && (c <=? 57).

(** [str(n)] for a Python [int]. *)
Fixpoint digits_fuel (fuel : nat) (n : N) (acc : pystr) : pystr :=
  match fuel with
  | O => acc
  | S f =>
      let acc' := (48 + n mod 10) :: acc in
      if n <? 10 then acc' else digits_fuel f (n / 10) acc'
  end.

Definition str_of_N (n : N) : pystr :=
  digits_fuel (S (N.size_nat n)) n [].

Definition str_of_Z (z : Z) : pystr :=
  match z with
  | Z.neg p => lit "-" ++ str_of_N (Npos p)
  | _ => str_of_N (Z.to_N z)
  end.

Definition str_of_nat (n : nat) : pystr := str_of_N (N.of_nat n).

(** ** Python values produced by [json.loads] *)

Inductive pyval : Type :=
| VNone
| VBool (b : bool)
| VNum (raw : pystr)            (* an [int] or [float], by its JSON text *)
| VStr (s : pystr)
| VList (l : list pyval)
| VDict (kvs : list (pystr * pyval)).  (* pairs in source order *)

(** [d.get(k, default)]: a JSON object with repeated keys keeps the last. *)
Definition dict_get (kvs : list (pystr * pyval)) (k : pystr) (default : pyval)
  : pyval :=
  match find (fun kv => pystr_eqb (fst kv) k) (rev kvs) with
  | Some (_, v) => v
  | None => default
  end.

(** Python type names, used in [AttributeError] messages. *)
Definition type_name (v : pyval) : pystr :=
  match v with
  | VNone => lit "NoneType"
  | VBool _ => lit "bool"
  | VNum raw =>
      if existsb (fun c => (c =? 46) || (c =? 101) || (c =? 69)
                           || (c =? 78) || (c =? 73)) raw
      then lit "float" else lit "int"
  | VStr _ => lit "str"
  | VList _ => lit "list"
  | VDict _ => lit "dict"
  end.

(** ** Exceptions *)

Inductive exn : Type :=
| ValueError (msg : pystr)
| OSError (msg : pystr)
| AttributeError (msg : pystr)
| RecursionError (msg : pystr).

(** [str(e)] *)
Definition str_exn (e : exn) : pystr :=
  match e with ValueError m | OSError m | AttributeError m | RecursionError m => m end.

(** ** [json.loads] (CPython's C scanner, [strict=True])

    [scanstring] returns the decoded string with the rest of the input, or
    [None] for a [JSONDecodeError].  The value scanners also report the
    two exceptions other than [JSONDecodeError] that the scanner raises on
    text it is reading: the [ValueError] of [int] for an integer literal
    with more digits than [sys.get_int_max_str_digits()] allows, and the
    [RecursionError] of [Py_EnterRecursiveCall] when an array or object is
    opened with the interpreter's recursion budget used up. *)

(** Result of scanning a value: the value with the rest of the input, a
    [JSONDecodeError] (or the [StopIteration] [raw_decode] turns into one),
    or another exception, which [json.loads] lets through. *)
Inductive scan_result : Type :=
| Scanned (v : pyval) (rest : pystr)
| ScanError
| ScanRaised (ex : exn).

(** JSON whitespace: space, tab, newline, carriage return. *)
Definition is_ws (c : N) : bool := (c =? 32) || (c =? 9) || (c =? 10) || (c =? 13).

Fixpoint skip_ws (s : pystr) : pystr :=
  match s with
  | c :: s' => if is_ws c then skip_ws s' else s
  | [] => []
  end.

Definition hex_val (c : N) : option N :=
  if (48 <=? c) && (c <=? 57) then Some (c - 48)
  else if (97 <=? c) && (c <=? 102) then Some (c - 87)
  else if (65 <=? c) && (c <=? 70) then Some (c - 55)
  else None.

Definition hex4 (a b c d : N) : option N :=
  match hex_val a, hex_val b, hex_val c, hex_val d with
  | Some x, Some y, Some z, Some w => Some (((x * 16 + y) * 16 + z) * 16 + w)
  | _, _, _, _ => None
  end.

(** One-character escapes: the character after the backslash. *)
Definition simple_escape (e : N) : option N :=
  if e =? 34 then Some 34          (* double quote *)
  else if e =? 92 then Some 92     (* backslash *)
  else if e =? 47 then Some 47     (* slash *)
  else if e =? 98 then Some 8      (* b *)
  else if e =? 102 then Some 12    (* f *)
  else if e =? 110 then Some 10    (* n *)
  else if e =? 114 then Some 13    (* r *)
  else if e =? 116 then Some 9     (* t *)
  else None.

Definition is_high_surrogate (c : N) : bool := (55296 <=? c) && (c <=? 56319).
Definition is_low_surrogate (c : N) : bool := (56320 <=? c) && (c <=? 57343).

Definition join_surrogates (hi lo : N) : N :=
  65536 + (hi - 55296) * 1024 + (lo - 56320).

(** [scanstring]: the input just after the opening quote; [acc] holds the
    decoded characters in reverse. *)
Fixpoint scanstring (s : pystr) (acc : pystr) : option (pystr * pystr) :=
  match s with
  | [] => None                                   (* unterminated *)
  | c :: r =>
      if c =? 34 then Some (rev acc, r)
      else if c =? 92 then
        match r with
        | [] => None
        | e :: r1 =>
            if e =? 117 then
              match r1 with
              | h1 :: h2 :: h3 :: h4 :: r2 =>
                  match hex4 h1 h2 h3 h4 with
                  | None => None                 (* invalid \uXXXX *)
                  | Some u =>
                      if is_high_surrogate u then
                        match r2 with
                        | b :: x :: k1 :: k2 :: k3 :: k4 :: r3 =>
                            if (b =? 92) && (x =? 117) then
                              match hex4 k1 k2 k3 k4 with
                              | None => None
                              | Some u2 =>
                                  if is_low_surrogate u2
                                  then scanstring r3 (join_surrogates u u2 :: acc)
                                  else scanstring r2 (u :: acc)
                              end
                            else scanstring r2 (u :: acc)
                        | _ => scanstring r2 (u :: acc)
                        end
                      else scanstring r2 (u :: acc)
                  end
              | _ => None
              end
            else
              match simple_escape e with
              | Some d => scanstring r1 (d :: acc)
              | None => None                     (* invalid \escape *)
              end
        end
      else if c <=? 31 then None                 (* control character *)
      else scanstring r (c :: acc)
  end.

Fixpoint take_digits (s : pystr) : pystr * pystr :=
  match s with
  | c :: s' =>
      if is_digit c then let '(d, r) := take_digits s' in (c :: d, r) else ([], s)
  | [] => ([], [])
  end.

(** The default of [sys.get_int_max_str_digits()]. *)
Definition int_max_str_digits : nat := 4300.

(** The message of the [ValueError] for an integer literal of [n] digits
    (CPython 3.12 and later). *)
Definition int_max_str_digits_msg (n : nat) : pystr :=
  lit "Exceeds the limit (4300 digits) for integer string conversion: value has "
  ++ str_of_nat n ++ lit " digits; use sys.set_int_max_str_digits() to increase the limit".

Definition is_nil {A : Type} (l : list A) : bool := match l with [] => true | _ => false end.

(** The message of the [RecursionError] raised on opening an array
    ([kind] "array") or object ([kind] "object") (CPython 3.12 and 3.13). *)
Definition recursion_msg (kind : pystr) : pystr :=
  lit "maximum recursion depth exceeded while decoding a JSON " ++ kind
  ++ lit " from a unicode string".

(** [_match_number_unicode]: [-?(0|[1-9][0-9]* )(\.[0-9]+)?([eE][-+]?[0-9]+)?] *)
Definition match_number (s : pystr) : scan_result :=
  let '(sign, s1) :=
    match s with
    | c :: s' => if c =? 45 then ([c], s') else ([], s)
    | [] => ([], [])
    end in
  let int_part :=
    match s1 with
    | c :: s' =>
        if c =? 48 then Some ([c], s')
        else if is_digit c then let '(d, r) := take_digits s' in Some (c :: d, r)
        else None
    | [] => None
    end in
  match int_part with
  | None => ScanError
  | Some (ip, s2) =>
      let '(fp, s3) :=
        match s2 with
        | c :: d :: s' =>
            if (c =? 46) && is_digit d
            then let '(ds, r) := take_digits (d :: s') in (c :: ds, r)
            else ([], s2)
        | _ => ([], s2)
        end in
      let '(ep, s4) :=
        match s3 with
        | c :: s' =>
            if (c =? 101) || (c =? 69) then
              let '(sg, s'') :=
                match s' with
                | x :: y :: t => if (x =? 45) || (x =? 43) then ([x], y :: t) else ([], s')
                | _ => ([], s')
                end in
              match take_digits s'' with
              | ([], _) => ([], s3)               (* backtrack before [e] *)
              | (ds, r) => (c :: sg ++ ds, r)
              end
            else ([], s3)
        | [] => ([], [])
        end in
      (* [PyLong_FromString] for an integer, [PyFloat_FromString] otherwise *)
      if is_nil fp && is_nil ep && (int_max_str_digits <? length ip)%nat
      then ScanRaised (ValueError (int_max_str_digits_msg (length ip)))
      else Scanned (VNum (sign ++ ip ++ fp ++ ep)) s4
  end.

(** [scan_once]: one JSON value at the head of [s].  [fuel] bounds the
    number of nested calls; [json_loads] gives more than the input length,
    which is never exhausted since each call consumes a character.
    [depth] is the recursion budget: how many more arrays and objects can
    be opened before [Py_EnterRecursiveCall] raises. *)
Fixpoint scan_once (fuel depth : nat) (s : pystr) {struct fuel} : scan_result :=
  match fuel with
  | O => ScanError
  | S f =>
      match s with
      | [] => ScanError
      | c :: r =>
          if c =? 34 then
            match scanstring r [] with
            | Some (x, r') => Scanned (VStr x) r'
            | None => ScanError
            end
          else if c =? 123 then
            match depth with
            | O => ScanRaised (RecursionError (recursion_msg (lit "object")))
            | S dp =>
            (* _parse_object_unicode *)
            let fix members (g : nat) (t : pystr) (acc : list (pystr * pyval))
              : scan_result :=
              match g with
              | O => ScanError
              | S g' =>
                  match t with
                  | q :: t1 =>
                      if negb (q =? 34) then ScanError   (* expecting property name *)
                      else
                        match scanstring t1 [] with
                        | None => ScanError
                        | Some (k, t2) =>
                            match skip_ws t2 with
                            | colon :: t3 =>
                                if negb (colon =? 58) then ScanError
                                else
                                  match scan_once f dp (skip_ws t3) with
                                  | Scanned v t4 =>
                                      match skip_ws t4 with
                                      | d :: t5 =>
                                          if d =? 125 then Scanned (VDict (rev ((k, v) :: acc))) t5
                                          else if d =? 44 then members g' (skip_ws t5) ((k, v) :: acc)
                                          else ScanError
                                      | [] => ScanError
                                      end
                                  | ScanError => ScanError
                                  | ScanRaised ex => ScanRaised ex
                                  end
                            | [] => ScanError
                            end
                        end
                  | [] => ScanError
                  end
              end in
            match skip_ws r with
            | d :: r1 => if d =? 125 then Scanned (VDict []) r1 else members f (d :: r1) []
            | [] => ScanError
            end
            end
          else if c =? 91 then
            match depth with
            | O => ScanRaised (RecursionError (recursion_msg (lit "array")))
            | S dp =>
            (* _parse_array_unicode *)
            let fix elements (g : nat) (t : pystr) (acc : list pyval) : scan_result :=
              match g with
              | O => ScanError
              | S g' =>
                  match scan_once f dp t with
                  | Scanned v t1 =>
                      match skip_ws t1 with
                      | d :: t2 =>
                          if d =? 93 then Scanned (VList (rev (v :: acc))) t2
                          else if d =? 44 then elements g' (skip_ws t2) (v :: acc)
                          else ScanError
                      | [] => ScanError
                      end
                  | ScanError => ScanError
                  | ScanRaised ex => ScanRaised ex
                  end
              end in
            match skip_ws r with
            | d :: r1 => if d =? 93 then Scanned (VList []) r1 else elements f (d :: r1) []
            | [] => ScanError
            end
            end
          else if startswith s (lit "null") then Scanned VNone (skipn 4 s)
          else if startswith s (lit "true") then Scanned (VBool true) (skipn 4 s)
          else if startswith s (lit "false") then Scanned (VBool false) (skipn 5 s)
          else if startswith s (lit "NaN") then Scanned (VNum (lit "NaN")) (skipn 3 s)
          else if startswith s (lit "Infinity") then Scanned (VNum (lit "Infinity")) (skipn 8 s)
          else if startswith s (lit "-Infinity") then Scanned (VNum (lit "-Infinity")) (skipn 9 s)
          else match_number s
      end
  end.

(** Outcome of [json.loads]: a value, a [JSONDecodeError], or another
    exception raised while scanning. *)
Inductive json_result : Type :=
| JOk (v : pyval)
| JDecodeError
| JRaises (ex : exn).

(** [json.loads(s)] with recursion budget [depth]: a leading BOM is
    refused, whitespace around the value is skipped and anything after it
    is "Extra data". *)
Definition json_loads (depth : nat) (s : pystr) : json_result :=
  match s with
  | c :: _ => if c =? 65279 then JDecodeError else
      match scan_once (S (length s)) depth (skip_ws s) with
      | Scanned v rest => match skip_ws rest with [] => JOk v | _ => JDecodeError end
      | ScanError => JDecodeError
      | ScanRaised ex => JRaises ex
      end
  | [] => JDecodeError
  end.


(** ** Paths *)

(** [str.lower()] on the characters that can lower-case to ASCII: A-Z,
    the Kelvin sign and the dotted capital I.  Other characters are kept:
    their lower-case forms are not ASCII, so keeping them does not change
    the comparison with the ASCII suffixes of [IMAGE_EXTENSIONS]. *)
Definition lower_char (c : N) : pystr :=
  if (65 <=? c) && (c <=? 90) then [c + 32]
  else if c =? 8490 then [107]
  else if c =? 304 then [105; 775]
  else [c].

Definition lower (s : pystr) : pystr := flat_map lower_char s.

(** [PurePath.suffix]: from the last dot, unless the dot is the first or
    the last character of the name. *)
Fixpoint rfind_dot (s : pystr) (i : nat) (best : option nat) : option nat :=
  match s with
  | [] => best
  | c :: s' => rfind_dot s' (S i) (if c =? 46 then Some i else best)
  end.

Definition suffix (name : pystr) : pystr :=
  match rfind_dot name 0 None with
  | Some i => if (0 <? i)%nat && (i <? length name - 1)%nat then skipn i name else []
  | None => []
  end.

(** [PurePath.with_suffix('.txt')]: the sidecar name of an image. *)
Definition with_suffix_txt (name : pystr) : pystr :=
  firstn (length name - length (suffix name)) name ++ lit ".txt".

(** [str(Path(a) / b)]; the folder is taken in the form [Path] prints it. *)
Definition path_join (a b : pystr) : pystr := a ++ lit "/" ++ b.

(** Code-point order of names: [sorted] on paths of one folder. *)
Fixpoint pystr_ltb (a b : pystr) : bool :=
  match a, b with
  | [], [] => false
  | [], _ :: _ => true
  | _ :: _, [] => false
  | x :: a', y :: b' => (x <? y) || ((x =? y) && pystr_ltb a' b')
  end.

Fixpoint insert_sorted (x : pystr) (l : list pystr) : list pystr :=
  match l with
  | [] => [x]
  | y :: l' => if pystr_ltb y x then y :: insert_sorted x l' else x :: l
  end.

Fixpoint sort_names (l : list pystr) : list pystr :=
  match l with
  | [] => []
  | x :: l' => insert_sorted x (sort_names l')
  end.

(** ** The source folder *)

(** A directory entry ([is_file()] follows symbolic links). *)
Inductive node : Type :=
| NFile (content : pystr)
| NDir.

Definition is_file (n : node) : bool :=
  match n with NFile _ => true | NDir => false end.

(** The source folder: missing, present but not listable (not a directory,
    no permission: [iterdir] raises the given [OSError]), or a directory. *)
Inductive folder_state : Type :=
| Missing
| Unlistable (err : exn)
| Dir (entries : list (pystr * node)).

Definition lookup_entry (name : pystr) (es : list (pystr * node)) : option node :=
  match find (fun e => pystr_eqb (fst e) name) es with
  | Some (_, n) => Some n
  | None => None
  end.

(** Writing a file: the entry is replaced in place, or added. *)
Fixpoint set_entry (name : pystr) (n : node) (es : list (pystr * node))
  : list (pystr * node) :=
  match es with
  | [] => [(name, n)]
  | (m, k) :: es' =>
      if pystr_eqb m name then (m, n) :: es' else (m, k) :: set_entry name n es'
  end.

Inductive result (A : Type) : Type :=
| Ok (a : A)
| Err (e : exn).
Arguments Ok {A} a.
Arguments Err {A} e.

(** ** Image discovery *)

Definition IMAGE_EXTENSIONS : list pystr :=
  [lit ".jpg"; lit ".jpeg"; lit ".png"; lit ".bmp"; lit ".tiff"; lit ".webp"].

Definition is_image_entry (e : pystr * node) : bool :=
  is_file (snd e) && existsb (pystr_eqb (lower (suffix (fst e)))) IMAGE_EXTENSIONS.

(** [find_image_files]: the names of the images, in sorted order. *)
Definition find_image_files (source_folder : pystr) (fs : folder_state)
  : result (list pystr) :=
  match fs with
  | Missing => Err (ValueError (lit "Source folder does not exist: " ++ source_folder))
  | Unlistable e => Err e
  | Dir es => Ok (sort_names (map fst (filter is_image_entry es)))
  end.

(** ** Caption store *)

(** [caption_exists]: [Path.exists()] holds for files and directories. *)
Definition caption_exists (name : pystr) (es : list (pystr * node)) : bool :=
  match lookup_entry (with_suffix_txt name) es with Some _ => true | None => false end.

(** How [open(path, 'w')] followed by [write] can fail. *)
Inductive write_fault : Type :=
| OpenFails (e : exn)              (* nothing is touched *)
| WriteFails (written : nat) (e : exn).  (* truncated, then a prefix written *)

Definition is_surrogate (c : N) : bool := (55296 <=? c) && (c <=? 57343).

(** The text [save_caption] writes. *)
Definition final_caption (caption : pystr) (template : option pystr) : pystr :=
  match template with
  | Some t =>
      if negb (pystr_eqb t []) && contains t (lit "{caption}")
      then replace t (lit "{caption}") caption
      else caption
  | None => caption
  end.

(** [save_caption]: the new entries, and the exception raised if any.
    [fault] is what the operating system does on this call; UTF-8 cannot
    encode a lone surrogate, so such a text fails after the truncation. *)
Definition save_caption (fault : option write_fault) (image : pystr)
  (caption : pystr) (template : option pystr) (es : list (pystr * node))
  : list (pystr * node) * option exn :=
  let final := final_caption caption template in
  let path := with_suffix_txt image in
  match lookup_entry path es with
  | Some NDir => (es, Some (OSError (lit "Is a directory")))
  | _ =>
      match fault with
      | Some (OpenFails e) => (es, Some e)
      | _ =>
          if existsb is_surrogate final
          then (set_entry path (NFile []) es, Some (ValueError (lit "surrogates not allowed")))
          else match fault with
               | Some (WriteFails k e) => (set_entry path (NFile (firstn k final)) es, Some e)
               | _ => (set_entry path (NFile final) es, None)
               end
      end
  end.

(** ** Backend invoker *)

(** What an external captioning process does: [subprocess.run] raises
    before it completes (the program cannot be started, or its output is
    not valid text), or the process runs for [duration] seconds and exits. *)
Inductive proc_behavior : Type :=
| PRaises (e : exn)
| PExit (duration : nat) (returncode : Z) (stdout stderr : pystr).

(** The environment of a run.  [json_depth] is how many arrays and
    objects [json.loads] can have open at once before the interpreter's
    recursion limit raises: it depends on the Python version and the depth
    of the calls, and is far above one. *)
Record env : Type := {
  executable : pystr;                        (* [sys.executable] *)
  script_dir : pystr;                        (* [Path(__file__).parent] *)
  backend : list pystr -> proc_behavior;     (* the process for an argv *)
  save_fault : pystr -> option write_fault;  (* [save_caption] per image *)
  json_depth : positive                      (* recursion budget of [json.loads] *)
}.

Inductive run_result : Type :=
| TimeoutExpired
| RunRaised (e : exn)
| Completed (returncode : Z) (stdout stderr : pystr).

(** [subprocess.run(cmd, capture_output=True, text=True, timeout=t)]:
    the child is killed when it runs longer than [t] seconds. *)
Definition subprocess_run (b : proc_behavior) (timeout : nat) : run_result :=
  match b with
  | PRaises e => RunRaised e
  | PExit d rc out err => if (timeout <? d)%nat then TimeoutExpired else Completed rc out err
  end.

(** The command line of each backend; [None] for an unsupported model. *)
Definition build_cmd (e : env) (image_str model style : pystr) (max_tokens : Z)
  : option (list pystr) :=
  let script s := path_join (script_dir e) s in
  if pystr_eqb model (lit "blip") || pystr_eqb model (lit "blip2") then
    Some [executable e; script (lit "generate_blip_caption.py");
          lit "--image_path"; image_str;
          lit "--model_type"; (if pystr_eqb model (lit "blip2") then lit "large" else lit "base");
          lit "--max_tokens"; str_of_Z max_tokens;
          lit "--style"; style]
  else if pystr_eqb model (lit "gpt-4-vision") then
    Some [executable e; script (lit "generate_gpt4v_caption.py");
          lit "--image_path"; image_str;
          lit "--style"; style;
          lit "--max_tokens"; str_of_Z max_tokens]
  else if pystr_eqb model (lit "vit-gpt2") then
    Some [executable e; script (lit "generate_ofa_caption.py");
          lit "--image_path"; image_str;
          lit "--max_length"; str_of_Z max_tokens;
          lit "--style"; style]
  else if pystr_eqb model (lit "florence-2") then
    Some [executable e; script (lit "generate_florence2_caption.py");
          lit "--image_path"; image_str;
          lit "--model_id"; lit "microsoft/Florence-2-base";
          lit "--prompt"; lit "<MORE_DETAILED_CAPTION>"]
  else None.

Definition error_prefix (m : pystr) : pyval := VStr (lit "Error: " ++ m).

(** The caption of a Florence-2 run that exited with 0:
    [json.loads(stdout.strip())] then [.get('caption', ...)]; a
    [JSONDecodeError] falls back to the stripped text.  [.get] on a value
    that is not a [dict] raises an [AttributeError], and [json.loads] can
    raise a [ValueError] (an integer literal too long) or a
    [RecursionError] (nesting beyond [depth]); the outer
    [except Exception] turns these into an error text. *)
Definition florence_caption (depth : nat) (out : pystr) : pyval :=
  match json_loads depth (strip out) with
  | JOk (VDict kvs) => dict_get kvs (lit "caption") (VStr (lit "No caption generated"))
  | JOk v =>
      error_prefix (lit "'" ++ type_name v ++ lit "' object has no attribute 'get'")
  | JDecodeError => VStr (strip out)
  | JRaises ex => error_prefix (str_exn ex)
  end.

(** [generate_caption_for_image]: the returned value and the argument
    vectors of the processes spawned (at most one). *)
Definition generate_caption_for_image (e : env) (image_str model style : pystr)
  (max_tokens : Z) : pyval * list (list pystr) :=
  match build_cmd e image_str model style max_tokens with
  | None => (error_prefix (str_exn (ValueError (lit "Unsupported model: " ++ model))), [])
  | Some cmd =>
      let v :=
        match subprocess_run (backend e cmd) 120 with
        | TimeoutExpired => VStr (lit "Error: Caption generation timed out")
        | RunRaised ex => error_prefix (str_exn ex)
        | Completed rc out err =>
            if (rc =? 0)%Z then
              if pystr_eqb model (lit "florence-2") then florence_caption (Pos.to_nat (json_depth e)) out
              else VStr (strip out)
            else
              let m := strip err in
              error_prefix (if pystr_eqb m [] then lit "Unknown error" else m)
        end in
      (v, [cmd])
  end.

(** ** Batch orchestrator *)

(** The parsed command line. *)
Record args : Type := {
  source_folder : pystr;
  model : pystr;
  style : pystr;
  template : option pystr;
  overwrite : bool;
  max_tokens : Z
}.

Definition MODEL_CHOICES : list pystr :=
  [lit "blip"; lit "blip2"; lit "gpt-4-vision"; lit "vit-gpt2"; lit "florence-2"].

Definition STYLE_CHOICES : list pystr :=
  [lit "detailed"; lit "simple"; lit "tags"; lit "artistic"].

(** [argparse]'s [choices]: any other value ends the process with a usage
    message on stderr and exit status 2, before [main]'s body runs. *)
Definition args_valid (a : args) : bool :=
  existsb (pystr_eqb (model a)) MODEL_CHOICES
  && existsb (pystr_eqb (style a)) STYLE_CHOICES.

(** The JSON lines printed on stdout. *)
Inductive event : Type :=
| EvProgress (message : pystr)
| EvProgressAt (message : pystr) (current total : nat) (filename : pystr)
| EvFileProcessed (filename caption : pystr)
| EvSummary (total_files processed skipped failed : nat) (processed_files : list pystr)
| EvError (message : pystr).

(** The state threaded through the loop of [main]: the folder entries, the
    printed events, the processes spawned, the calls of [save_caption]
    (image name, and whether the call returned without raising) and the
    three lists of names. *)
Record batch_state : Type := {
  entries : list (pystr * node);
  output : list event;
  spawned : list (list pystr);
  save_calls : list (pystr * bool);
  processed_files : list pystr;
  skipped_files : list pystr;
  failed_files : list pystr
}.

Definition emit (ev : event) (st : batch_state) : batch_state :=
  {| entries := entries st; output := output st ++ [ev]; spawned := spawned st;
     save_calls := save_calls st; processed_files := processed_files st;
     skipped_files := skipped_files st; failed_files := failed_files st |}.

Definition add_spawned (cmds : list (list pystr)) (st : batch_state) : batch_state :=
  {| entries := entries st; output := output st; spawned := spawned st ++ cmds;
     save_calls := save_calls st; processed_files := processed_files st;
     skipped_files := skipped_files st; failed_files := failed_files st |}.

Definition record_save (es : list (pystr * node)) (call : pystr * bool)
  (st : batch_state) : batch_state :=
  {| entries := es; output := output st; spawned := spawned st;
     save_calls := save_calls st ++ [call]; processed_files := processed_files st;
     skipped_files := skipped_files st; failed_files := failed_files st |}.

Definition add_processed (n : pystr) (st : batch_state) : batch_state :=
  {| entries := entries st; output := output st; spawned := spawned st;
     save_calls := save_calls st; processed_files := processed_files st ++ [n];
     skipped_files := skipped_files st; failed_files := failed_files st |}.

Definition add_skipped (n : pystr) (st : batch_state) : batch_state :=
  {| entries := entries st; output := output st; spawned := spawned st;
     save_calls := save_calls st; processed_files := processed_files st;
     skipped_files := skipped_files st ++ [n]; failed_files := failed_files st |}.

Definition add_failed (n : pystr) (st : batch_state) : batch_state :=
  {| entries := entries st; output := output st; spawned := spawned st;
     save_calls := save_calls st; processed_files := processed_files st;
     skipped_files := skipped_files st; failed_files := failed_files st ++ [n] |}.

(** [caption[:100] + "..." if len(caption) > 100 else caption] *)
Definition truncate_caption (c : pystr) : pystr :=
  if (100 <? length c)%nat then firstn 100 c ++ lit "..." else c.

(** The check on the caption: [caption and not caption.startswith("Error")]. *)
Definition caption_ok (c : pystr) : bool :=
  negb (pystr_eqb c []) && negb (startswith c (lit "Error")).

(** One iteration of the loop of [main], for the image [name] at index [i].
    A returned value that is not a [str] is either falsy (the [else]
    branch) or makes [caption.startswith] raise an [AttributeError] (the
    [except] branch): both only append the name to [failed_files]. *)
Definition process_image (a : args) (e : env) (total : nat) (st : batch_state)
  (i : nat) (name : pystr) : batch_state :=
  if negb (overwrite a) && caption_exists name (entries st) then
    emit (EvProgress (lit "Skipped " ++ name ++ lit " (caption exists)"))
         (add_skipped name st)
  else
    let st1 := emit (EvProgressAt (lit "Processing " ++ str_of_nat (S i) ++ lit "/"
                                   ++ str_of_nat total ++ lit ": " ++ name)
                                  (S i) total name) st in
    let '(v, cmds) := generate_caption_for_image e (path_join (source_folder a) name)
                        (model a) (style a) (max_tokens a) in
    let st2 := add_spawned cmds st1 in
    match v with
    | VStr caption =>
        if caption_ok caption then
          let '(es, raised) := save_caption (save_fault e name) name caption
                                 (template a) (entries st2) in
          match raised with
          | Some _ => add_failed name (record_save es (name, false) st2)
          | None =>
              emit (EvFileProcessed name (truncate_caption caption))
                   (add_processed name (record_save es (name, true) st2))
          end
        else add_failed name st2
    | _ => add_failed name st2
    end.

(** [for i, image_path in enumerate(image_files)] from index [i]. *)
Fixpoint caption_loop (a : args) (e : env) (total : nat) (st : batch_state)
  (i : nat) (names : list pystr) : batch_state :=
  match names with
  | [] => st
  | n :: ns => caption_loop a e total (process_image a e total st i n) (S i) ns
  end.

Record outcome : Type := {
  exit_code : Z;
  events : list event;
  final_run : option batch_state   (* the state after the loop, if it ran *)
}.

Definition folder_entries (fs : folder_state) : list (pystr * node) :=
  match fs with Dir es => es | _ => [] end.

Definition initial_state (es : list (pystr * node)) (ev : event) : batch_state :=
  {| entries := es; output := [ev]; spawned := []; save_calls := [];
     processed_files := []; skipped_files := []; failed_files := [] |}.

(** [main]: [args_valid] stands for [parser.parse_args()]. *)
Definition main (a : args) (fs : folder_state) (e : env) : outcome :=
  if negb (args_valid a) then {| exit_code := 2; events := []; final_run := None |}
  else
    match find_image_files (source_folder a) fs with
    | Err ex =>
        {| exit_code := 1;
           events := [EvError (lit "Batch caption generation failed: " ++ str_exn ex)];
           final_run := None |}
    | Ok [] =>
        {| exit_code := 0;
           events := [EvError (lit "No image files found in " ++ source_folder a)];
           final_run := None |}
    | Ok image_files =>
        let total_files := length image_files in
        let st0 := initial_state (folder_entries fs)
                     (EvProgress (lit "Found " ++ str_of_nat total_files
                                  ++ lit " images to process")) in
        let st := caption_loop a e total_files st0 0 image_files in
        let np := length (processed_files st) in
        let ns := length (skipped_files st) in
        let nf := length (failed_files st) in
        {| exit_code := 0;
           events := output st
             ++ [EvSummary total_files np ns nf (processed_files st);
                 EvProgress (lit "Batch caption generation completed! Processed: "
                             ++ str_of_nat np ++ lit ", Skipped: " ++ str_of_nat ns
                             ++ lit ", Failed: " ++ str_of_nat nf)];
           final_run := Some st |}
    end.

(** * Properties *)

(** ** Strings and entries *)

Lemma pystr_eqb_spec (a b : pystr) : pystr_eqb a b = true <-> a = b.
Proof.
  revert b; induction a as [|x a IH]; intros [|y b]; simpl; try (split; congruence).
  rewrite andb_true_iff, IH, N.eqb_eq. split; [intros [-> ->]; reflexivity|].
  intros H; inversion H; auto.
Qed.

Lemma pystr_eqb_refl (a : pystr) : pystr_eqb a a = true.
Proof. apply pystr_eqb_spec; reflexivity. Qed.

Lemma lookup_set_entry_same (p : pystr) (n : node) (es : list (pystr * node)) :
  lookup_entry p (set_entry p n es) = Some n.
Proof.
  unfold lookup_entry; induction es as [|[m k] es IH]; simpl.
  - rewrite pystr_eqb_refl; reflexivity.
  - destruct (pystr_eqb m p) eqn:E; simpl; rewrite ?E; [reflexivity|exact IH].
Qed.

Lemma lookup_set_entry_other (p q : pystr) (n : node) (es : list (pystr * node)) :
  p <> q -> lookup_entry p (set_entry q n es) = lookup_entry p es.
Proof.
  intros Hne; unfold lookup_entry; induction es as [|[m k] es IH]; simpl.
  - destruct (pystr_eqb q p) eqn:E; [apply pystr_eqb_spec in E; congruence|reflexivity].
  - destruct (pystr_eqb m q) eqn:E; simpl.
    + apply pystr_eqb_spec in E; subst m.
      destruct (pystr_eqb q p) eqn:E2; [apply pystr_eqb_spec in E2; congruence|reflexivity].
    + destruct (pystr_eqb m p); [reflexivity|exact IH].
Qed.

(** ** Sorting the names *)

Definition name_le (x y : pystr) : Prop := pystr_ltb y x = false.

Lemma pystr_ltb_asym (a b : pystr) : pystr_ltb a b = true -> pystr_ltb b a = false.
Proof.
  revert b; induction a as [|x a IH]; intros [|y b]; simpl; try discriminate; auto.
  rewrite orb_true_iff, andb_true_iff, N.ltb_lt, N.eqb_eq.
  intros [Hlt | [-> Hab]].
  - apply orb_false_iff; split; [apply N.ltb_ge; lia|].
    apply andb_false_iff; left; apply N.eqb_neq; lia.
  - rewrite N.ltb_irrefl, N.eqb_refl; simpl; auto.
Qed.

Lemma insert_sorted_perm (x : pystr) (l : list pystr) :
  Permutation (insert_sorted x l) (x :: l).
Proof.
  induction l as [|y l IH]; simpl; [reflexivity|].
  destruct (pystr_ltb y x); [|reflexivity].
  rewrite IH; apply perm_swap.
Qed.

Lemma sort_names_perm (l : list pystr) : Permutation (sort_names l) l.
Proof.
  induction l as [|x l IH]; simpl; [reflexivity|].
  rewrite insert_sorted_perm, IH; reflexivity.
Qed.

Lemma insert_sorted_sorted (x : pystr) (l : list pystr) :
  Sorted name_le l -> Sorted name_le (insert_sorted x l).
Proof.
  induction 1 as [|y l Hs IH Hhd]; simpl; [repeat constructor|].
  destruct (pystr_ltb y x) eqn:E.
  - constructor; [exact IH|].
    destruct l as [|z l]; simpl.
    + constructor; unfold name_le; now apply pystr_ltb_asym.
    + inversion Hhd; subst.
      destruct (pystr_ltb z x); constructor; [assumption|unfold name_le; now apply pystr_ltb_asym].
  - constructor; [constructor; assumption|constructor; exact E].
Qed.

Lemma sort_names_sorted (l : list pystr) : Sorted name_le (sort_names l).
Proof.
  induction l as [|x l IH]; simpl; [constructor|].
  apply insert_sorted_sorted, IH.
Qed.

(** ** Image discovery *)

(** C8: on a missing folder [find_image_files] fails (with the [ValueError]
    the spec calls [FolderNotFound]); on a directory it returns, sorted by
    name, exactly the regular files among its own entries whose suffix,
    lower-cased, is one of .jpg .jpeg .png .bmp .tiff .webp. *)
Theorem find_image_files_contract :
  (forall folder, exists msg, find_image_files folder Missing = Err (ValueError msg)) /\
  (forall folder es, exists l,
     find_image_files folder (Dir es) = Ok l /\
     (forall n, In n l <->
        exists c, In (n, NFile c) es /\
          In (lower (suffix n))
             [lit ".jpg"; lit ".jpeg"; lit ".png"; lit ".bmp"; lit ".tiff"; lit ".webp"]) /\
     Sorted name_le l /\
     Permutation l (map fst (filter is_image_entry es))).
Proof.
  split.
  - intros folder; eexists; reflexivity.
  - intros folder es; eexists; split; [reflexivity|].
    split; [|split; [apply sort_names_sorted|apply sort_names_perm]].
    intros n; split.
    + intros Hin.
      apply (Permutation_in _ (sort_names_perm _)) in Hin.
      apply in_map_iff in Hin as [[m k] [Hm Hin]]; simpl in Hm; subst m.
      apply filter_In in Hin as [Hin Hok].
      unfold is_image_entry in Hok; cbn [fst snd] in Hok.
      apply andb_true_iff in Hok as [Hf Hx].
      destruct k as [c|]; [|discriminate].
      exists c; split; [exact Hin|].
      apply existsb_exists in Hx as [x [Hx Heq]].
      apply pystr_eqb_spec in Heq; subst x; exact Hx.
    + intros [c [Hin Hx]].
      apply (Permutation_in _ (Permutation_sym (sort_names_perm _))).
      apply in_map_iff; exists (n, NFile c); split; [reflexivity|].
      apply filter_In; split; [exact Hin|].
      unfold is_image_entry; cbn [fst snd is_file andb].
      apply existsb_exists; exists (lower (suffix n)); split;
        [exact Hx|apply pystr_eqb_refl].
Qed.

(** ** The loop *)

Ltac unfold_setters :=
  unfold emit, add_spawned, record_save, add_processed, add_skipped, add_failed;
  cbn [entries output spawned save_calls processed_files skipped_files failed_files].

(** Each iteration appends the name to exactly one of the three lists. *)
Lemma process_image_lists (a : args) (e : env) (total : nat) (st : batch_state)
  (i : nat) (name : pystr) :
  let st' := process_image a e total st i name in
  (processed_files st' = processed_files st ++ [name] /\
   skipped_files st' = skipped_files st /\ failed_files st' = failed_files st) \/
  (processed_files st' = processed_files st /\
   skipped_files st' = skipped_files st ++ [name] /\ failed_files st' = failed_files st) \/
  (processed_files st' = processed_files st /\
   skipped_files st' = skipped_files st /\ failed_files st' = failed_files st ++ [name]).
Proof.
  unfold process_image.
  destruct (negb (overwrite a) && caption_exists name (entries st)).
  { right; left; unfold_setters; auto. }
  destruct (generate_caption_for_image _ _ _ _ _) as [v cmds].
  destruct v as [| | |c| |]; try (right; right; unfold_setters; auto; fail).
  destruct (caption_ok c); [|right; right; unfold_setters; auto].
  destruct (save_caption _ _ _ _ _) as [es [ex|]].
  - right; right; unfold_setters; auto.
  - left; unfold_setters; auto.
Qed.

Lemma caption_loop_perm (a : args) (e : env) (total : nat) (names : list pystr) :
  forall st i,
    let st' := caption_loop a e total st i names in
    Permutation (processed_files st' ++ skipped_files st' ++ failed_files st')
                (processed_files st ++ skipped_files st ++ failed_files st ++ names).
Proof.
  induction names as [|n names IH]; intros st i; simpl.
  - rewrite !app_nil_r; reflexivity.
  - rewrite IH.
    destruct (process_image_lists a e total st i n) as [[-> [-> ->]]|[[-> [-> ->]]|[-> [-> ->]]]];
      rewrite <- !app_assoc; apply Permutation_app_head; simpl.
    + rewrite (app_assoc (skipped_files st) (failed_files st) (n :: names)),
        (app_assoc (skipped_files st) (failed_files st) names).
      apply Permutation_middle.
    + apply Permutation_app_head; apply Permutation_middle.
    + apply Permutation_app_head, Permutation_app_head; reflexivity.
Qed.

Definition is_summary (ev : event) : bool :=
  match ev with EvSummary _ _ _ _ _ => true | _ => false end.

Lemma process_image_output (a : args) (e : env) (total : nat) (st : batch_state)
  (i : nat) (name : pystr) (ev : event) :
  In ev (output (process_image a e total st i name)) ->
  In ev (output st) \/ is_summary ev = false.
Proof.
  unfold process_image.
  destruct (negb (overwrite a) && caption_exists name (entries st)).
  { unfold_setters; intros H; apply in_app_or in H as [H|[<-|[]]]; auto. }
  destruct (generate_caption_for_image _ _ _ _ _) as [v cmds].
  assert (Hst1 : forall ev', In ev' (output (add_spawned cmds (emit (EvProgressAt
      (lit "Processing " ++ str_of_nat (S i) ++ lit "/" ++ str_of_nat total ++ lit ": " ++ name)
      (S i) total name) st))) -> In ev' (output st) \/ is_summary ev' = false).
  { unfold_setters; intros ev' H; apply in_app_or in H as [H|[<-|[]]]; auto. }
  destruct v as [| | |c| |]; try (unfold add_failed; cbn [output]; apply Hst1).
  destruct (caption_ok c); [|unfold add_failed; cbn [output]; apply Hst1].
  destruct (save_caption _ _ _ _ _) as [es [ex|]].
  - unfold add_failed, record_save; cbn [output]; apply Hst1.
  - unfold emit at 1; cbn [output]; intros H; apply in_app_or in H as [H|[<-|[]]]; auto.
Qed.

Lemma caption_loop_output (a : args) (e : env) (total : nat) (names : list pystr) :
  forall st i ev,
    In ev (output (caption_loop a e total st i names)) ->
    In ev (output st) \/ is_summary ev = false.
Proof.
  induction names as [|n names IH]; intros st i ev H; simpl in H; [auto|].
  apply IH in H as [H|H]; [|auto].
  eapply process_image_output; exact H.
Qed.

(** C1: whenever [main] prints the summary event, every discovered image
    is in exactly one of [processed_files], [skipped_files],
    [failed_files] (the three lists are a permutation of the discovered
    images), and the counts printed satisfy
    [processed + skipped + failed = total_files]. *)
Theorem summary_counts_partition (a : args) (fs : folder_state) (e : env)
  (t p s f : nat) (pf : list pystr) :
  In (EvSummary t p s f pf) (events (main a fs e)) ->
  (p + s + f = t)%nat /\
  exists image_files st,
    find_image_files (source_folder a) fs = Ok image_files /\
    final_run (main a fs e) = Some st /\
    t = length image_files /\
    p = length (processed_files st) /\ s = length (skipped_files st) /\
    f = length (failed_files st) /\
    Permutation (processed_files st ++ skipped_files st ++ failed_files st) image_files.
Proof.
  unfold main; destruct (args_valid a); cbn [negb]; [|cbn; intros []].
  destruct (find_image_files (source_folder a) fs) as [imgs|ex] eqn:Hfind;
    [|cbn; intros [H|[]]; discriminate].
  destruct imgs as [|i0 imgs]; [cbn; intros [H|[]]; discriminate|].
  set (imgs0 := i0 :: imgs).
  set (st0 := initial_state _ _).
  set (st := caption_loop a e (length imgs0) st0 0 imgs0).
  cbn [events final_run]; intros H.
  assert (Hperm : Permutation (processed_files st ++ skipped_files st ++ failed_files st)
                              imgs0)
    by exact (caption_loop_perm a e (length imgs0) imgs0 st0 0).
  apply in_app_or in H as [H|H].
  - apply caption_loop_output in H as [H|H]; cbn in H.
    + destruct H as [H|[]]; discriminate.
    + discriminate.
  - destruct H as [H|[H|[]]]; [|discriminate].
    injection H as Ht Hp Hs Hf Hpf; subst t p s f pf.
    assert (Hlen := Permutation_length Hperm).
    rewrite !length_app in Hlen.
    split; [unfold imgs0 in Hlen; cbn [length] in Hlen; lia|].
    exists imgs0, st; repeat split; auto.
Qed.

(** A run over a folder holding one image with no caption, whose backend
    prints a caption. *)
Definition demo_env (out : pystr) : env :=
  {| executable := lit "/usr/bin/python3";
     script_dir := lit "/opt/fluxyoga/scripts";
     backend := fun _ => PExit 3 0 out [];
     save_fault := fun _ => None;
     json_depth := 1000 |}.

Definition demo_args (m : string) (ow : bool) : args :=
  {| source_folder := lit "photos"; model := lit m; style := lit "detailed";
     template := None; overwrite := ow; max_tokens := 150 |}.

Lemma summary_counts_partition_witness :
  In (EvSummary 1 1 0 0 [lit "cat.jpg"])
     (events (main (demo_args "blip" false) (Dir [(lit "cat.jpg", NFile [])])
                   (demo_env (lit "a cat on a sofa")))) /\
  (1 + 0 + 0 = 1)%nat.
Proof.
  split; [vm_compute; auto 10|].
  apply (summary_counts_partition (demo_args "blip" false) (Dir [(lit "cat.jpg", NFile [])])
           (demo_env (lit "a cat on a sofa")) 1 1 0 0 [lit "cat.jpg"]).
  vm_compute; auto 10.
Defined.

(** ** One iteration, skipped or dispatched *)

(** The test of the skip policy: [not args.overwrite and caption_exists(...)]. *)
Definition skips (a : args) (st : batch_state) (name : pystr) : bool :=
  negb (overwrite a) && caption_exists name (entries st).

Definition generated (a : args) (e : env) (name : pystr) : pyval * list (list pystr) :=
  generate_caption_for_image e (path_join (source_folder a) name)
    (model a) (style a) (max_tokens a).

Lemma process_image_skip (a : args) (e : env) (total : nat) (st : batch_state)
  (i : nat) (name : pystr) :
  skips a st name = true ->
  process_image a e total st i name
  = emit (EvProgress (lit "Skipped " ++ name ++ lit " (caption exists)")) (add_skipped name st).
Proof. unfold process_image, skips; intros ->; reflexivity. Qed.

(** [save_caption] only touches the sidecar of its image. *)
Lemma save_caption_frame (fault : option write_fault) (image caption : pystr)
  (template : option pystr) (es : list (pystr * node)) (p : pystr) :
  p <> with_suffix_txt image ->
  lookup_entry p (fst (save_caption fault image caption template es)) = lookup_entry p es.
Proof.
  intros Hp; unfold save_caption.
  destruct (lookup_entry (with_suffix_txt image) es) as [[k|]|];
    try reflexivity;
    destruct fault as [[ex|k' ex]|];
    repeat match goal with
           | |- context [if ?b then _ else _] => destruct b
           end;
    cbn [fst]; try reflexivity; apply lookup_set_entry_other; exact Hp.
Qed.

(** When [save_caption] returns, the sidecar holds [final_caption]. *)
Lemma save_caption_written (fault : option write_fault) (image caption : pystr)
  (template : option pystr) (es : list (pystr * node)) :
  snd (save_caption fault image caption template es) = None ->
  lookup_entry (with_suffix_txt image) (fst (save_caption fault image caption template es))
  = Some (NFile (final_caption caption template)).
Proof.
  unfold save_caption.
  destruct (lookup_entry (with_suffix_txt image) es) as [[k|]|];
    try (cbn; discriminate);
    destruct fault as [[ex|k' ex]|];
    repeat match goal with
           | |- context [if ?b then _ else _] => destruct b
           end;
    cbn [fst snd]; try discriminate; intros _; apply lookup_set_entry_same.
Qed.

(** A dispatched image: the processes of [generate_caption_for_image] are
    recorded, the image is not skipped, and only its sidecar may change. *)
Lemma process_image_dispatch (a : args) (e : env) (total : nat) (st : batch_state)
  (i : nat) (name : pystr) :
  skips a st name = false ->
  let st' := process_image a e total st i name in
  spawned st' = spawned st ++ snd (generated a e name) /\
  skipped_files st' = skipped_files st /\
  (forall p, p <> with_suffix_txt name -> lookup_entry p (entries st') = lookup_entry p (entries st)).
Proof.
  unfold process_image, skips, generated; intros ->.
  destruct (generate_caption_for_image _ _ _ _ _) as [v cmds]; cbn [snd].
  destruct v as [| | |c| |]; try (unfold_setters; auto; fail).
  destruct (caption_ok c); [|unfold_setters; auto].
  unfold_setters.
  destruct (save_caption _ _ _ _ _) as [es raised] eqn:Hsave.
  assert (Hframe := save_caption_frame (save_fault e name) name c (template a) (entries st)).
  rewrite Hsave in Hframe; cbn [fst] in Hframe.
  destruct raised; unfold_setters; auto.
Qed.

Lemma app_one_neq {A : Type} (l : list A) (x : A) : l <> l ++ [x].
Proof.
  intros H; apply (f_equal (@length A)) in H; rewrite length_app in H; simpl in H; lia.
Qed.

(** Classification of a dispatched image: it goes to [processed_files] iff
    the returned value is a non-empty [str] that does not start with
    ["Error"] and [save_caption] returns; the sidecar then holds
    [final_caption]. *)
Lemma process_image_processed (a : args) (e : env) (total : nat) (st : batch_state)
  (i : nat) (name : pystr) :
  skips a st name = false ->
  let st' := process_image a e total st i name in
  (processed_files st' = processed_files st ++ [name] <->
     exists c, fst (generated a e name) = VStr c /\ c <> [] /\
       startswith c (lit "Error") = false /\
       snd (save_caption (save_fault e name) name c (template a) (entries st)) = None) /\
  (forall c, processed_files st' = processed_files st ++ [name] ->
     fst (generated a e name) = VStr c ->
     lookup_entry (with_suffix_txt name) (entries st') = Some (NFile (final_caption c (template a)))).
Proof.
  unfold process_image, skips, generated; intros ->.
  destruct (generate_caption_for_image _ _ _ _ _) as [v cmds]; cbn [fst].
  destruct v as [| | |c| |];
    try (unfold_setters; split;
         [split; [intros H; exfalso; eapply app_one_neq; exact H
                 |intros [c [Hc _]]; discriminate]
         |intros c H; exfalso; eapply app_one_neq; exact H]; fail).
  unfold caption_ok.
  destruct (pystr_eqb c []) eqn:Hnil; cbn [negb andb].
  { unfold_setters; split;
      [split; [intros H; exfalso; eapply app_one_neq; exact H|]
      |intros c' H; exfalso; eapply app_one_neq; exact H].
    intros [c' [Hc [Hne _]]]; injection Hc as <-; apply pystr_eqb_spec in Hnil; contradiction. }
  destruct (startswith c (lit "Error")) eqn:Herr; cbn [negb].
  { unfold_setters; split;
      [split; [intros H; exfalso; eapply app_one_neq; exact H|]
      |intros c' H; exfalso; eapply app_one_neq; exact H].
    intros [c' [Hc [_ [Hs _]]]]; injection Hc as <-; congruence. }
  assert (Hne : c <> []) by (intros ->; discriminate).
  unfold_setters.
  destruct (save_caption _ _ _ _ _) as [es raised] eqn:Hsave; destruct raised as [ex|];
    unfold_setters.
  - split; [split; [intros H; exfalso; eapply app_one_neq; exact H|]
           |intros c' H; exfalso; eapply app_one_neq; exact H].
    intros [c' [Hc [_ [_ Hs]]]]; injection Hc as <-; rewrite Hsave in Hs; discriminate.
  - split; [split; [intros _; exists c; rewrite Hsave; auto|auto]|].
    intros c' _ Hc; injection Hc as <-.
    assert (Hok := save_caption_written (save_fault e name) name c (template a) (entries st)).
    rewrite Hsave in Hok; apply Hok; reflexivity.
Qed.

(** ** Classification of a dispatched image *)

(** C2, as the code has it (counterexample: [empty_output_not_processed]):
    a dispatched image ends in [processed_files] iff the returned caption
    is a non-empty [str] not starting with ["Error"] and [save_caption]
    returns without raising; its sidecar then holds the caption put into
    the template when a non-empty template containing ["{caption}"] is
    given, and the caption itself otherwise. *)
Theorem dispatched_image_classification (a : args) (e : env) (total : nat)
  (st : batch_state) (i : nat) (name : pystr) :
  skips a st name = false ->
  let st' := process_image a e total st i name in
  (processed_files st' = processed_files st ++ [name] <->
     exists c, fst (generated a e name) = VStr c /\ c <> [] /\
       startswith c (lit "Error") = false /\
       snd (save_caption (save_fault e name) name c (template a) (entries st)) = None) /\
  (forall c, processed_files st' = processed_files st ++ [name] ->
     fst (generated a e name) = VStr c ->
     lookup_entry (with_suffix_txt name) (entries st')
     = Some (NFile (match template a with
                    | Some t =>
                        if negb (pystr_eqb t []) && contains t (lit "{caption}")
                        then replace t (lit "{caption}") c else c
                    | None => c
                    end))).
Proof.
  intros Hd; cbv zeta.
  pose proof (process_image_processed a e total st i name Hd) as H; cbv zeta in H.
  destruct H as [H1 H2].
  split; [exact H1|].
  intros c Hp Hc; rewrite (H2 c Hp Hc); reflexivity.
Qed.

Definition demo_state : batch_state :=
  initial_state [(lit "cat.jpg", NFile [])] (EvProgress (lit "Found 1 images to process")).

Lemma dispatched_image_classification_witness :
  skips (demo_args "blip" false) demo_state (lit "cat.jpg") = false /\
  processed_files (process_image (demo_args "blip" false) (demo_env (lit "a cat"))
                     1 demo_state 0 (lit "cat.jpg")) = [lit "cat.jpg"].
Proof.
  split; [reflexivity|].
  apply (proj2 (proj1 (dispatched_image_classification (demo_args "blip" false)
                         (demo_env (lit "a cat")) 1 demo_state 0 (lit "cat.jpg") eq_refl))).
  exists (lit "a cat"); split; [vm_compute; reflexivity|].
  split; [discriminate|split; reflexivity].
Defined.

(** C2 fails as stated: the [blip] process exits with 0 and prints nothing;
    the empty caption does not start with the error marker, yet the image
    is counted as failed ([if caption and ...]). *)
Lemma empty_output_not_processed :
  fst (generated (demo_args "blip" false) (demo_env []) (lit "cat.jpg")) = VStr [] /\
  startswith [] (lit "Error") = false /\
  option_map processed_files
    (final_run (main (demo_args "blip" false) (Dir [(lit "cat.jpg", NFile [])]) (demo_env [])))
  = Some [] /\
  option_map failed_files
    (final_run (main (demo_args "blip" false) (Dir [(lit "cat.jpg", NFile [])]) (demo_env [])))
  = Some [lit "cat.jpg"].
Proof. vm_compute; repeat split. Qed.

(** ** Skip and overwrite policy *)

Lemma build_cmd_supported (e : env) (image_str m s : pystr) (mt : Z) :
  existsb (pystr_eqb m) MODEL_CHOICES = true ->
  exists cmd, build_cmd e image_str m s mt = Some cmd.
Proof.
  intros H; apply existsb_exists in H as [x [Hx Heq]].
  apply pystr_eqb_spec in Heq; subst x.
  unfold MODEL_CHOICES in Hx.
  destruct Hx as [<-|[<-|[<-|[<-|[<-|[]]]]]]; eexists; reflexivity.
Qed.

Lemma generated_spawns (a : args) (e : env) (name : pystr) (cmd : list pystr) :
  build_cmd e (path_join (source_folder a) name) (model a) (style a) (max_tokens a) = Some cmd ->
  snd (generated a e name) = [cmd].
Proof.
  intros H; unfold generated, generate_caption_for_image; rewrite H; reflexivity.
Qed.

Lemma caption_loop_overwrite (a : args) (e : env) (total : nat) (names : list pystr) :
  overwrite a = true -> existsb (pystr_eqb (model a)) MODEL_CHOICES = true ->
  forall st i, exists cmds,
    Forall2 (fun n cmd => build_cmd e (path_join (source_folder a) n)
                            (model a) (style a) (max_tokens a) = Some cmd) names cmds /\
    spawned (caption_loop a e total st i names) = spawned st ++ cmds /\
    skipped_files (caption_loop a e total st i names) = skipped_files st.
Proof.
  intros Hov Hm; induction names as [|n names IH]; intros st i; simpl.
  - exists []; rewrite app_nil_r; auto.
  - assert (Hs : skips a st n = false) by (unfold skips; rewrite Hov; reflexivity).
    destruct (build_cmd_supported e (path_join (source_folder a) n) (model a) (style a)
                (max_tokens a) Hm) as [cmd Hcmd].
    pose proof (process_image_dispatch a e total st i n Hs) as [Hsp [Hsk _]].
    destruct (IH (process_image a e total st i n) (S i)) as [cmds [Hf [Hsp' Hsk']]].
    exists (cmd :: cmds); split; [constructor; assumption|].
    rewrite Hsp', Hsp, (generated_spawns a e n cmd Hcmd), <- app_assoc.
    split; [reflexivity|congruence].
Qed.

(** C3: with overwrite off, an image whose sidecar exists when its turn
    comes is skipped and no process is spawned for it; with overwrite on
    (and the command line accepted), every discovered image gets exactly
    one backend process, in discovery order, and none is skipped. *)
Theorem overwrite_policy :
  (forall a e total st i name,
     overwrite a = false -> caption_exists name (entries st) = true ->
     let st' := process_image a e total st i name in
     skipped_files st' = skipped_files st ++ [name] /\ spawned st' = spawned st /\
     processed_files st' = processed_files st /\ failed_files st' = failed_files st /\
     entries st' = entries st) /\
  (forall a fs e image_files,
     args_valid a = true -> overwrite a = true ->
     find_image_files (source_folder a) fs = Ok image_files -> image_files <> [] ->
     exists st cmds,
       final_run (main a fs e) = Some st /\ skipped_files st = [] /\
       Forall2 (fun n cmd => build_cmd e (path_join (source_folder a) n)
                               (model a) (style a) (max_tokens a) = Some cmd)
               image_files cmds /\
       spawned st = cmds).
Proof.
  split.
  - intros a e total st i name Hov Hex; cbv zeta.
    rewrite process_image_skip by (unfold skips; rewrite Hov, Hex; reflexivity).
    unfold_setters; auto.
  - intros a fs e imgs Hv Hov Hfind Hne.
    assert (Hm : existsb (pystr_eqb (model a)) MODEL_CHOICES = true)
      by (unfold args_valid in Hv; apply andb_true_iff in Hv; tauto).
    unfold main; rewrite Hv, Hfind; cbn [negb].
    destruct imgs as [|i0 imgs]; [contradiction|].
    destruct (caption_loop_overwrite a e (length (i0 :: imgs)) (i0 :: imgs) Hov Hm
                (initial_state (folder_entries fs)
                   (EvProgress (lit "Found " ++ str_of_nat (length (i0 :: imgs))
                                ++ lit " images to process"))) 0)
      as [cmds [Hf [Hsp Hsk]]].
    eexists; exists cmds; split; [reflexivity|].
    split; [exact Hsk|split; [exact Hf|exact Hsp]].
Qed.

Lemma overwrite_policy_witness :
  (overwrite (demo_args "blip" false) = false /\
   caption_exists (lit "cat.jpg") [(lit "cat.jpg", NFile []); (lit "cat.txt", NFile (lit "a cat"))]
   = true) /\
  skipped_files (process_image (demo_args "blip" false) (demo_env (lit "a dog")) 1
                   (initial_state [(lit "cat.jpg", NFile []); (lit "cat.txt", NFile (lit "a cat"))]
                      (EvProgress []))
                   0 (lit "cat.jpg")) = [lit "cat.jpg"] /\
  (exists st cmds,
     final_run (main (demo_args "blip" true)
                 (Dir [(lit "cat.jpg", NFile []); (lit "cat.txt", NFile (lit "a cat"))])
                 (demo_env (lit "a dog"))) = Some st /\
     skipped_files st = [] /\
     Forall2 (fun n cmd => build_cmd (demo_env (lit "a dog")) (path_join (lit "photos") n)
                             (lit "blip") (lit "detailed") 150 = Some cmd)
             [lit "cat.jpg"] cmds /\
     spawned st = cmds).
Proof.
  split; [split; reflexivity|split].
  - apply (proj1 overwrite_policy (demo_args "blip" false) (demo_env (lit "a dog")) 1%nat
             (initial_state [(lit "cat.jpg", NFile []); (lit "cat.txt", NFile (lit "a cat"))]
                (EvProgress []))
             0%nat (lit "cat.jpg") eq_refl eq_refl).
  - apply (proj2 overwrite_policy (demo_args "blip" true)
             (Dir [(lit "cat.jpg", NFile []); (lit "cat.txt", NFile (lit "a cat"))])
             (demo_env (lit "a dog")) [lit "cat.jpg"] eq_refl eq_refl eq_refl).
    discriminate.
Defined.

(** ** Failures of the invoker *)

(** A dispatched image whose returned value is rejected by the check on
    the caption is only appended to [failed_files]. *)
Lemma process_image_rejected (a : args) (e : env) (total : nat) (st : batch_state)
  (i : nat) (name : pystr) :
  skips a st name = false ->
  (forall c, fst (generated a e name) = VStr c -> caption_ok c = false) ->
  let st' := process_image a e total st i name in
  failed_files st' = failed_files st ++ [name] /\
  processed_files st' = processed_files st /\ skipped_files st' = skipped_files st /\
  entries st' = entries st /\ save_calls st' = save_calls st.
Proof.
  unfold process_image, skips, generated; intros -> Hrej.
  destruct (generate_caption_for_image _ _ _ _ _) as [v cmds]; cbn [fst] in Hrej.
  destruct v as [| | |c| |]; try (unfold_setters; auto; fail).
  rewrite (Hrej c eq_refl); unfold_setters; auto.
Qed.

(** An error text is never accepted as a caption. *)
Lemma caption_ok_error_prefix (m : pystr) : caption_ok (lit "Error: " ++ m) = false.
Proof. unfold caption_ok; cbn [lit app startswith]; rewrite andb_false_r; reflexivity. Qed.

(** When discovery finds images, [main] runs the whole loop, prints the
    summary and exits with 0. *)
Lemma main_runs_loop (a : args) (fs : folder_state) (e : env) (image_files : list pystr) :
  args_valid a = true ->
  find_image_files (source_folder a) fs = Ok image_files -> image_files <> [] ->
  exists st,
    final_run (main a fs e) = Some st /\ exit_code (main a fs e) = 0%Z /\
    Permutation (processed_files st ++ skipped_files st ++ failed_files st) image_files /\
    In (EvSummary (length image_files) (length (processed_files st))
          (length (skipped_files st)) (length (failed_files st)) (processed_files st))
       (events (main a fs e)).
Proof.
  intros Hv Hfind Hne.
  unfold main; rewrite Hv, Hfind; cbn [negb].
  destruct image_files as [|i0 imgs]; [contradiction|].
  set (imgs0 := i0 :: imgs).
  set (st0 := initial_state _ _).
  set (st := caption_loop a e (length imgs0) st0 0 imgs0).
  exists st; cbn [final_run exit_code events]; split; [reflexivity|split; [reflexivity|]].
  split; [exact (caption_loop_perm a e (length imgs0) imgs0 st0 0)|].
  apply in_or_app; right; left; reflexivity.
Qed.

(** C4: the process of every supported backend runs under a 120 second
    limit: one that runs longer makes [generate_caption_for_image] return
    the text "Error: Caption generation timed out" (no exception reaches
    the caller), the image is appended to [failed_files] and nothing is
    saved for it, and [main] still runs the rest of the loop, prints the
    summary and exits with 0. *)
Theorem backend_timeout_fails_image :
  (forall e image_str m s mt cmd d rc out err,
     build_cmd e image_str m s mt = Some cmd ->
     backend e cmd = PExit d rc out err -> (120 < d)%nat ->
     generate_caption_for_image e image_str m s mt
     = (VStr (lit "Error: Caption generation timed out"), [cmd])) /\
  (forall a e total st i name cmd d rc out err,
     skips a st name = false ->
     build_cmd e (path_join (source_folder a) name) (model a) (style a) (max_tokens a)
     = Some cmd ->
     backend e cmd = PExit d rc out err -> (120 < d)%nat ->
     let st' := process_image a e total st i name in
     failed_files st' = failed_files st ++ [name] /\
     processed_files st' = processed_files st /\ skipped_files st' = skipped_files st /\
     entries st' = entries st /\ spawned st' = spawned st ++ [cmd]) /\
  (forall a fs e image_files,
     args_valid a = true ->
     find_image_files (source_folder a) fs = Ok image_files -> image_files <> [] ->
     exit_code (main a fs e) = 0%Z /\
     exists st, final_run (main a fs e) = Some st /\
       In (EvSummary (length image_files) (length (processed_files st))
             (length (skipped_files st)) (length (failed_files st)) (processed_files st))
          (events (main a fs e))).
Proof.
  assert (Hgen : forall e image_str m s mt cmd d rc out err,
     build_cmd e image_str m s mt = Some cmd ->
     backend e cmd = PExit d rc out err -> (120 < d)%nat ->
     generate_caption_for_image e image_str m s mt
     = (VStr (lit "Error: Caption generation timed out"), [cmd])).
  { intros e image_str m s mt cmd d rc out err Hcmd Hb Hd.
    unfold generate_caption_for_image, subprocess_run; rewrite Hcmd, Hb.
    apply Nat.ltb_lt in Hd; rewrite Hd; reflexivity. }
  split; [exact Hgen|split].
  - intros a e total st i name cmd d rc out err Hs Hcmd Hb Hd; cbv zeta.
    assert (Hv : generated a e name
                 = (VStr (lit "Error: Caption generation timed out"), [cmd]))
      by (unfold generated; eapply Hgen; eassumption).
    pose proof (process_image_rejected a e total st i name Hs) as Hrej.
    cbv zeta in Hrej.
    destruct Hrej as [Hf [Hp [Hsk [He _]]]].
    { rewrite Hv; cbn [fst]; intros c Hc; injection Hc as <-; reflexivity. }
    pose proof (process_image_dispatch a e total st i name Hs) as [Hsp _].
    rewrite Hv in Hsp; cbn [snd] in Hsp; auto.
  - intros a fs e imgs Hv Hfind Hne.
    destruct (main_runs_loop a fs e imgs Hv Hfind Hne) as [st [Hst [Hex [_ Hin]]]].
    split; [exact Hex|exists st; auto].
Qed.

(** A backend that runs for five minutes. *)
Definition slow_env : env :=
  {| executable := lit "/usr/bin/python3";
     script_dir := lit "/opt/fluxyoga/scripts";
     backend := fun _ => PExit 300 0 (lit "a cat") [];
     save_fault := fun _ => None;
     json_depth := 1000 |}.

Lemma backend_timeout_fails_image_witness :
  (exists cmd,
     build_cmd slow_env (lit "photos/cat.jpg") (lit "blip") (lit "detailed") 150 = Some cmd /\
     generate_caption_for_image slow_env (lit "photos/cat.jpg") (lit "blip") (lit "detailed") 150
     = (VStr (lit "Error: Caption generation timed out"), [cmd])) /\
  failed_files (process_image (demo_args "blip" false) slow_env 1 demo_state 0 (lit "cat.jpg"))
  = [lit "cat.jpg"] /\
  exit_code (main (demo_args "blip" false) (Dir [(lit "cat.jpg", NFile [])]) slow_env) = 0%Z.
Proof.
  split; [|split].
  - eexists; split; [reflexivity|].
    eapply (proj1 backend_timeout_fails_image); [reflexivity|reflexivity|].
    cbv; lia.
  - eapply (proj1 (proj2 backend_timeout_fails_image) (demo_args "blip" false) slow_env
              1%nat demo_state 0%nat (lit "cat.jpg")); [reflexivity|reflexivity|reflexivity|].
    cbv; lia.
  - apply (proj2 (proj2 backend_timeout_fails_image) (demo_args "blip" false)
             (Dir [(lit "cat.jpg", NFile [])]) slow_env [lit "cat.jpg"] eq_refl eq_refl).
    discriminate.
Defined.

(** ** Florence-2 output *)


Definition florence_args : args :=
  {| source_folder := lit "photos"; model := lit "florence-2"; style := lit "detailed";
     template := None; overwrite := false; max_tokens := 150 |}.




(** ** A folder without images *)

(** C6 (the early return): when discovery finds no image, [main] prints a
    single error event, runs no loop and prints no summary, and returns
    normally, so the process exits with status 0, whereas the other
    error path ([except Exception]: [sys.exit(1)]) exits with 1. *)
Theorem no_images_single_error_exit_zero (a : args) (fs : folder_state) (e : env) :
  args_valid a = true ->
  find_image_files (source_folder a) fs = Ok [] ->
  main a fs e = {| exit_code := 0;
                   events := [EvError (lit "No image files found in " ++ source_folder a)];
                   final_run := None |}.
Proof.
  intros Hv Hf; unfold main; rewrite Hv, Hf; reflexivity.
Qed.

Lemma no_images_single_error_exit_zero_witness :
  main (demo_args "blip" false) (Dir [(lit "notes.txt", NFile (lit "todo"))]) (demo_env [])
  = {| exit_code := 0; events := [EvError (lit "No image files found in photos")];
       final_run := None |}.
Proof.
  apply (no_images_single_error_exit_zero (demo_args "blip" false)
           (Dir [(lit "notes.txt", NFile (lit "todo"))]) (demo_env [])); reflexivity.
Defined.

(** The other error path exits with 1. *)
Lemma missing_folder_exit_one :
  exit_code (main (demo_args "blip" false) Missing (demo_env [])) = 1%Z.
Proof. reflexivity. Qed.

(** ** Unsupported backends *)

Lemma build_cmd_unsupported (e : env) (image_str m s : pystr) (mt : Z) :
  existsb (pystr_eqb m) MODEL_CHOICES = false -> build_cmd e image_str m s mt = None.
Proof.
  unfold MODEL_CHOICES, build_cmd; cbn [existsb].
  intros H.
  repeat match goal with
         | |- context [pystr_eqb m ?x] =>
             destruct (pystr_eqb m x); cbn [orb] in H |- *; [discriminate|]
         end.
  reflexivity.
Qed.

Lemma caption_loop_unsupported (a : args) (e : env) (total : nat) (names : list pystr) :
  existsb (pystr_eqb (model a)) MODEL_CHOICES = false ->
  forall st i,
    spawned (caption_loop a e total st i names) = spawned st /\
    processed_files (caption_loop a e total st i names) = processed_files st.
Proof.
  intros Hm; induction names as [|n names IH]; intros st i; simpl; [auto|].
  destruct (IH (process_image a e total st i n) (S i)) as [-> ->].
  destruct (skips a st n) eqn:Hs.
  - rewrite process_image_skip by exact Hs; unfold_setters; auto.
  - assert (Hg : generated a e n
                 = (error_prefix (lit "Unsupported model: " ++ model a), [])).
    { unfold generated, generate_caption_for_image; rewrite build_cmd_unsupported by exact Hm.
      reflexivity. }
    pose proof (process_image_dispatch a e total st i n Hs) as [Hsp _].
    pose proof (process_image_rejected a e total st i n Hs) as Hrej; cbv zeta in Hrej.
    destruct Hrej as [_ [Hp _]].
    { rewrite Hg; intros c Hc; injection Hc as <-; reflexivity. }
    rewrite Hsp, Hg, Hp; cbn [snd]; rewrite app_nil_r; auto.
Qed.

(** C7, as the code has it (counterexample: [unsupported_model_no_run]):
    [argparse] accepts only the five supported identifiers, so with any
    other one the process stops with status 2 before discovery, printing
    no event and no summary.  At the invoker, an unsupported identifier
    gives the text "Error: Unsupported model: <id>" without spawning a
    process, so the loop run with one spawns nothing and processes no
    image. *)
Theorem unsupported_backend_rejected :
  (forall a fs e,
     existsb (pystr_eqb (model a)) MODEL_CHOICES = false ->
     main a fs e = {| exit_code := 2; events := []; final_run := None |}) /\
  (forall e image_str m s mt,
     existsb (pystr_eqb m) MODEL_CHOICES = false ->
     generate_caption_for_image e image_str m s mt
     = (VStr (lit "Error: Unsupported model: " ++ m), [])) /\
  (forall a e total names st i,
     existsb (pystr_eqb (model a)) MODEL_CHOICES = false ->
     spawned (caption_loop a e total st i names) = spawned st /\
     processed_files (caption_loop a e total st i names) = processed_files st).
Proof.
  split; [|split].
  - intros a fs e Hm; unfold main, args_valid; rewrite Hm; reflexivity.
  - intros e image_str m s mt Hm.
    unfold generate_caption_for_image; rewrite build_cmd_unsupported by exact Hm.
    reflexivity.
  - intros a e total names st i Hm; apply caption_loop_unsupported; exact Hm.
Qed.

Lemma unsupported_backend_rejected_witness :
  main (demo_args "llava" false) (Dir [(lit "cat.jpg", NFile [])]) (demo_env (lit "a cat"))
  = {| exit_code := 2; events := []; final_run := None |} /\
  generate_caption_for_image (demo_env (lit "a cat")) (lit "photos/cat.jpg") (lit "llava")
    (lit "detailed") 150 = (VStr (lit "Error: Unsupported model: " ++ lit "llava"), []) /\
  spawned (caption_loop (demo_args "llava" false) (demo_env (lit "a cat")) 1 demo_state 0
             [lit "cat.jpg"]) = [].
Proof.
  split; [|split].
  - apply (proj1 unsupported_backend_rejected); reflexivity.
  - apply (proj1 (proj2 unsupported_backend_rejected)); reflexivity.
  - apply (proj2 (proj2 unsupported_backend_rejected) (demo_args "llava" false)
             (demo_env (lit "a cat")) 1%nat [lit "cat.jpg"] demo_state 0%nat); reflexivity.
Defined.

(** C7 fails as stated: with an unsupported identifier no image is
    processed at all and no summary (let alone [failed == total]) is
    printed; the command line is refused with status 2. *)
Lemma unsupported_model_no_run :
  let r := main (demo_args "llava" false) (Dir [(lit "cat.jpg", NFile [])])
                (demo_env (lit "a cat")) in
  exit_code r = 2%Z /\ events r = [] /\ final_run r = None.
Proof. vm_compute; repeat split. Qed.

(** ** Florence-2 object without a caption *)

Lemma dict_get_absent (kvs : list (pystr * pyval)) (k : pystr) (default : pyval) :
  (forall v, ~ In (k, v) kvs) -> dict_get kvs k default = default.
Proof.
  intros Habs; unfold dict_get.
  destruct (find _ (rev kvs)) as [[k' v]|] eqn:E; [|reflexivity].
  apply find_some in E as [Hin Heq]; cbn [fst] in Heq.
  apply pystr_eqb_spec in Heq; subst k'.
  apply in_rev in Hin; exfalso; exact (Habs v Hin).
Qed.

(** C9, as the code has it (counterexample: [florence_no_caption_save_fails]):
    when the Florence-2 process exits with 0 within the time limit and
    [json.loads] returns, for its stripped output, an object without a
    "caption" key (raising neither a [JSONDecodeError] nor, on an integer
    literal over the digit limit or nesting beyond the recursion limit,
    another exception), the invoker returns
    "No caption generated"; provided writing the sidecar succeeds, the
    image is Succeeded and its sidecar holds that text (put into the
    template when one containing "{caption}" is configured). *)
Theorem florence_missing_caption_placeholder :
  (forall e image_str s mt cmd d out err kvs,
     build_cmd e image_str (lit "florence-2") s mt = Some cmd ->
     backend e cmd = PExit d 0 out err -> (d <= 120)%nat ->
     json_loads (Pos.to_nat (json_depth e)) (strip out) = JOk (VDict kvs) -> (forall v, ~ In (lit "caption", v) kvs) ->
     generate_caption_for_image e image_str (lit "florence-2") s mt
     = (VStr (lit "No caption generated"), [cmd])) /\
  (forall a e total st i name cmd d out err kvs,
     model a = lit "florence-2" -> skips a st name = false ->
     build_cmd e (path_join (source_folder a) name) (model a) (style a) (max_tokens a)
     = Some cmd ->
     backend e cmd = PExit d 0 out err -> (d <= 120)%nat ->
     json_loads (Pos.to_nat (json_depth e)) (strip out) = JOk (VDict kvs) -> (forall v, ~ In (lit "caption", v) kvs) ->
     snd (save_caption (save_fault e name) name (lit "No caption generated") (template a)
            (entries st)) = None ->
     let st' := process_image a e total st i name in
     processed_files st' = processed_files st ++ [name] /\
     lookup_entry (with_suffix_txt name) (entries st')
     = Some (NFile (final_caption (lit "No caption generated") (template a)))).
Proof.
  assert (Hgen : forall e image_str s mt cmd d out err kvs,
     build_cmd e image_str (lit "florence-2") s mt = Some cmd ->
     backend e cmd = PExit d 0 out err -> (d <= 120)%nat ->
     json_loads (Pos.to_nat (json_depth e)) (strip out) = JOk (VDict kvs) -> (forall v, ~ In (lit "caption", v) kvs) ->
     generate_caption_for_image e image_str (lit "florence-2") s mt
     = (VStr (lit "No caption generated"), [cmd])).
  { intros e image_str s mt cmd d out err kvs Hcmd Hb Hd Hj Habs.
    unfold generate_caption_for_image, subprocess_run; rewrite Hcmd, Hb.
    apply Nat.ltb_ge in Hd; rewrite Hd; cbn [Z.eqb].
    unfold florence_caption; rewrite Hj, dict_get_absent by exact Habs; reflexivity. }
  split; [exact Hgen|].
  intros a e total st i name cmd d out err kvs Hm Hs Hcmd Hb Hd Hj Habs Hsave; cbv zeta.
  pose proof (process_image_processed a e total st i name Hs) as [Hiff Hside].
  assert (Hv : fst (generated a e name) = VStr (lit "No caption generated")).
  { unfold generated; rewrite Hm in *; rewrite (Hgen e _ _ _ cmd d out err kvs Hcmd Hb Hd Hj Habs).
    reflexivity. }
  assert (Hp : processed_files (process_image a e total st i name)
               = processed_files st ++ [name]).
  { apply Hiff; exists (lit "No caption generated"); repeat split; auto; discriminate. }
  split; [exact Hp|apply Hside; assumption].
Qed.

Lemma florence_missing_caption_placeholder_witness :
  (exists cmd,
     build_cmd (demo_env (lit " {}")) (lit "photos/cat.jpg") (lit "florence-2")
       (lit "detailed") 150 = Some cmd /\
     generate_caption_for_image (demo_env (lit " {}")) (lit "photos/cat.jpg")
       (lit "florence-2") (lit "detailed") 150 = (VStr (lit "No caption generated"), [cmd])) /\
  processed_files (process_image florence_args (demo_env (lit " {}")) 1 demo_state 0
                     (lit "cat.jpg")) = [lit "cat.jpg"].
Proof.
  split.
  - eexists; split; [reflexivity|].
    eapply (proj1 florence_missing_caption_placeholder);
      [reflexivity|reflexivity|cbv; lia|vm_compute; reflexivity|].
    intros v [].
  - eapply (proj2 florence_missing_caption_placeholder florence_args (demo_env (lit " {}"))
              1%nat demo_state 0%nat (lit "cat.jpg") _ 3%nat (lit " {}") [] []
              eq_refl eq_refl eq_refl eq_refl ltac:(lia) ltac:(vm_compute; reflexivity)
              (fun v H => match H with end) eq_refl).
Defined.

(** The Florence-2 run prints an object without "caption", but the sidecar
    cannot be written. *)
Definition readonly_env (out : pystr) : env :=
  {| executable := lit "/usr/bin/python3";
     script_dir := lit "/opt/fluxyoga/scripts";
     backend := fun _ => PExit 3 0 out [];
     save_fault := fun _ => Some (OpenFails (OSError (lit "[Errno 13] Permission denied")));
     json_depth := 1000 |}.

(** C9 fails as stated: the placeholder is returned, but the image is
    counted as failed and no sidecar is written when [open] raises. *)
Lemma florence_no_caption_save_fails :
  fst (generated florence_args (readonly_env (lit "{}")) (lit "cat.jpg"))
  = VStr (lit "No caption generated") /\
  option_map failed_files
    (final_run (main florence_args (Dir [(lit "cat.jpg", NFile [])]) (readonly_env (lit "{}"))))
  = Some [lit "cat.jpg"] /\
  option_map (fun st => lookup_entry (lit "cat.txt") (entries st))
    (final_run (main florence_args (Dir [(lit "cat.jpg", NFile [])]) (readonly_env (lit "{}"))))
  = Some None.
Proof. vm_compute; repeat split. Qed.

(** ** Which sidecars a run writes *)

Definition node_eq_dec (x y : node) : {x = y} + {x <> y}.
Proof. decide equality; apply list_eq_dec, N.eq_dec. Defined.

Definition opt_node_eq_dec (x y : option node) : {x = y} + {x <> y}.
Proof. decide equality; apply node_eq_dec. Defined.

(** One iteration: the calls of [save_caption] it adds are for its image,
    and an entry changes only if it is that image's sidecar and a call was
    made. *)
Lemma process_image_save_frame (a : args) (e : env) (total : nat) (st : batch_state)
  (i : nat) (name : pystr) :
  let st' := process_image a e total st i name in
  exists calls,
    save_calls st' = save_calls st ++ calls /\
    (forall c, In c calls -> fst c = name) /\
    (forall p, lookup_entry p (entries st') <> lookup_entry p (entries st) ->
       p = with_suffix_txt name /\ calls <> []).
Proof.
  unfold process_image.
  destruct (negb (overwrite a) && caption_exists name (entries st)).
  { exists []; unfold_setters; rewrite app_nil_r.
    split; [reflexivity|split; [intros ? []|intros p H; congruence]]. }
  destruct (generate_caption_for_image _ _ _ _ _) as [v cmds].
  destruct v as [| | |c| |];
    try (exists []; unfold_setters; rewrite app_nil_r;
         split; [reflexivity|split; [intros ? []|intros p H; congruence]]; fail).
  destruct (caption_ok c);
    [|exists []; unfold_setters; rewrite app_nil_r;
      split; [reflexivity|split; [intros ? []|intros p H; congruence]]].
  unfold_setters.
  destruct (save_caption _ _ _ _ _) as [es raised] eqn:Hsave.
  assert (Hframe := save_caption_frame (save_fault e name) name c (template a) (entries st)).
  rewrite Hsave in Hframe; cbn [fst] in Hframe.
  assert (Hp : forall p, lookup_entry p es <> lookup_entry p (entries st) ->
                 p = with_suffix_txt name /\ [(name, match raised with Some _ => false | None => true end)] <> []).
  { intros p Hne; split; [|discriminate].
    destruct (list_eq_dec N.eq_dec p (with_suffix_txt name)) as [->|Hneq]; [reflexivity|].
    exfalso; exact (Hne (Hframe p Hneq)). }
  destruct raised as [ex|]; unfold_setters;
    eexists; (split; [reflexivity|split; [intros c' [<-|[]]; reflexivity|exact Hp]]).
Qed.

Lemma caption_loop_save_frame (a : args) (e : env) (total : nat) (names : list pystr) :
  forall st i,
    let st' := caption_loop a e total st i names in
    exists calls,
      save_calls st' = save_calls st ++ calls /\
      (forall c, In c calls -> In (fst c) names) /\
      (forall p, lookup_entry p (entries st') <> lookup_entry p (entries st) ->
         exists c, In c calls /\ with_suffix_txt (fst c) = p).
Proof.
  induction names as [|n names IH]; intros st i; cbn [caption_loop].
  - exists []; rewrite app_nil_r.
    split; [reflexivity|split; [intros c []|intros p H; congruence]].
  - destruct (process_image_save_frame a e total st i n) as [calls1 [Hs1 [Hn1 Hf1]]].
    destruct (IH (process_image a e total st i n) (S i)) as [calls2 [Hs2 [Hn2 Hf2]]].
    exists (calls1 ++ calls2); split; [rewrite Hs2, Hs1, app_assoc; reflexivity|split].
    + intros c Hc; apply in_app_or in Hc as [Hc|Hc].
      * left; symmetry; apply Hn1, Hc.
      * right; apply Hn2, Hc.
    + intros p Hne.
      destruct (opt_node_eq_dec
                  (lookup_entry p (entries (caption_loop a e total (process_image a e total st i n) (S i) names)))
                  (lookup_entry p (entries (process_image a e total st i n)))) as [Heq|Hneq].
      * rewrite Heq in Hne; destruct (Hf1 p Hne) as [-> Hcalls].
        destruct calls1 as [|c calls1]; [contradiction|].
        exists c; split; [left; reflexivity|].
        rewrite (Hn1 c (or_introl eq_refl)); reflexivity.
      * destruct (Hf2 p Hneq) as [c [Hc Hp]].
        exists c; split; [apply in_or_app; right; exact Hc|exact Hp].
Qed.

(** How one iteration ends, with its calls of [save_caption]: skipped or
    rejected without a call, failed after a call that raised, or processed
    after a call that returned. *)
Lemma process_image_save_cases (a : args) (e : env) (total : nat) (st : batch_state)
  (i : nat) (name : pystr) :
  let st' := process_image a e total st i name in
  (skipped_files st' = skipped_files st ++ [name] /\
   failed_files st' = failed_files st /\ processed_files st' = processed_files st /\
   save_calls st' = save_calls st /\ entries st' = entries st) \/
  (failed_files st' = failed_files st ++ [name] /\
   skipped_files st' = skipped_files st /\ processed_files st' = processed_files st /\
   save_calls st' = save_calls st /\ entries st' = entries st) \/
  (failed_files st' = failed_files st ++ [name] /\
   skipped_files st' = skipped_files st /\ processed_files st' = processed_files st /\
   save_calls st' = save_calls st ++ [(name, false)]) \/
  (processed_files st' = processed_files st ++ [name] /\
   skipped_files st' = skipped_files st /\ failed_files st' = failed_files st /\
   save_calls st' = save_calls st ++ [(name, true)]).
Proof.
  unfold process_image.
  destruct (negb (overwrite a) && caption_exists name (entries st)).
  { left; unfold_setters; auto. }
  destruct (generate_caption_for_image _ _ _ _ _) as [v cmds].
  destruct v as [| | |c| |]; try (right; left; unfold_setters; auto; fail).
  destruct (caption_ok c); [|right; left; unfold_setters; auto].
  destruct (save_caption _ _ _ _ _) as [es [ex|]].
  - right; right; left; unfold_setters; auto.
  - right; right; right; unfold_setters; auto.
Qed.

(** C10, as the code has it (counterexample:
    [shared_stem_sidecar_overwritten]): an iteration that ends Skipped
    makes no call of [save_caption] and changes no entry; one that ends
    Failed either makes no call and changes no entry, or makes one call
    for its image that raised; one that ends Succeeded makes one call for
    its image that returned. Over a run, an entry changes only through a
    call of [save_caption] for an image whose sidecar it is. *)
Theorem sidecar_writes_frame :
  (forall a e total st i name,
     let st' := process_image a e total st i name in
     (skipped_files st' = skipped_files st ++ [name] ->
        save_calls st' = save_calls st /\ entries st' = entries st) /\
     (failed_files st' = failed_files st ++ [name] ->
        (save_calls st' = save_calls st /\ entries st' = entries st) \/
        save_calls st' = save_calls st ++ [(name, false)]) /\
     (processed_files st' = processed_files st ++ [name] ->
        save_calls st' = save_calls st ++ [(name, true)])) /\
  (forall a e total st i names,
     let st' := caption_loop a e total st i names in
     exists calls,
       save_calls st' = save_calls st ++ calls /\
       (forall c, In c calls -> In (fst c) names) /\
       (forall p, lookup_entry p (entries st') <> lookup_entry p (entries st) ->
          exists c, In c calls /\ with_suffix_txt (fst c) = p)).
Proof.
  split.
  - intros a e total st i name; cbv zeta.
    pose proof (process_image_save_cases a e total st i name) as Hc; cbv zeta in Hc.
    destruct Hc as [(Hs & Hf & Hp & Hc & He)|[(Hf & Hs & Hp & Hc & He)
                   |[(Hf & Hs & Hp & Hc)|(Hp & Hs & Hf & Hc)]]];
      rewrite ?Hs, ?Hf, ?Hp, ?Hc;
      (split; [|split]); intros Habs;
      first [exfalso; eapply app_one_neq; exact Habs
            |split; [reflexivity|exact He]
            |left; split; [reflexivity|exact He]
            |right; reflexivity
            |reflexivity].
  - intros a e total st i names; cbv zeta.
    exact (caption_loop_save_frame a e total names st i).
Qed.

Lemma sidecar_writes_frame_witness :
  skipped_files (process_image (demo_args "blip" false) (demo_env (lit "a dog")) 1
                   (initial_state [(lit "cat.jpg", NFile []); (lit "cat.txt", NFile (lit "a cat"))]
                      (EvProgress []))
                   0 (lit "cat.jpg")) = [lit "cat.jpg"] /\
  save_calls (process_image (demo_args "blip" false) (demo_env (lit "a dog")) 1
                (initial_state [(lit "cat.jpg", NFile []); (lit "cat.txt", NFile (lit "a cat"))]
                   (EvProgress []))
                0 (lit "cat.jpg")) = [] /\
  entries (process_image (demo_args "blip" false) (demo_env (lit "a dog")) 1
             (initial_state [(lit "cat.jpg", NFile []); (lit "cat.txt", NFile (lit "a cat"))]
                (EvProgress []))
             0 (lit "cat.jpg"))
  = [(lit "cat.jpg", NFile []); (lit "cat.txt", NFile (lit "a cat"))].
Proof.
  split; [reflexivity|].
  exact (proj1 (proj1 sidecar_writes_frame (demo_args "blip" false) (demo_env (lit "a dog")) 1%nat
                  (initial_state [(lit "cat.jpg", NFile []); (lit "cat.txt", NFile (lit "a cat"))]
                     (EvProgress []))
                  0%nat (lit "cat.jpg")) eq_refl).
Defined.

(** A folder with [x.jpg], [x.png] and a sidecar [x.txt]; the backend
    succeeds on [photos/x.jpg] and exits with 1 on any other image. *)
Definition stem_env : env :=
  {| executable := lit "/usr/bin/python3";
     script_dir := lit "/opt/fluxyoga/scripts";
     backend := fun argv =>
       if existsb (pystr_eqb (lit "photos/x.jpg")) argv
       then PExit 3 0 (lit "a cat") []
       else PExit 3 1 [] (lit "CUDA out of memory");
     save_fault := fun _ => None;
     json_depth := 1000 |}.

Definition stem_folder : folder_state :=
  Dir [(lit "x.jpg", NFile []); (lit "x.png", NFile []); (lit "x.txt", NFile (lit "old"))].

(** C10 fails as stated: [x.png] ends Failed, yet its sidecar [x.txt],
    which existed before the run, holds a new text afterwards, written by
    the call of [save_caption] for [x.jpg]. *)
Lemma shared_stem_sidecar_overwritten :
  option_map failed_files (final_run (main (demo_args "blip" true) stem_folder stem_env))
  = Some [lit "x.png"] /\
  with_suffix_txt (lit "x.png") = lit "x.txt" /\
  option_map (fun st => lookup_entry (lit "x.txt") (entries st))
    (final_run (main (demo_args "blip" true) stem_folder stem_env))
  = Some (Some (NFile (lit "a cat"))) /\
  lookup_entry (lit "x.txt") (folder_entries stem_folder) = Some (NFile (lit "old")).
Proof. vm_compute; repeat split. Qed.

(** * Further properties of the code *)

(** ** Template substitution in [save_caption] *)

(** [sep.join(segs)] *)
Fixpoint str_join (sep : pystr) (segs : list pystr) : pystr :=
  match segs with
  | [] => []
  | [s] => s
  | s :: r => s ++ sep ++ str_join sep r
  end.

Lemma startswith_app (p r : pystr) : startswith (p ++ r) p = true.
Proof. induction p as [|x p IH]; simpl; [destruct r; reflexivity|rewrite N.eqb_refl, IH; reflexivity]. Qed.

Lemma replace_fuel_plain (f : nat) (s r p new : pystr) (y : N) :
  Forall (fun x => x <> y) s -> (length s <= f)%nat ->
  replace_fuel f (s ++ r) (y :: p) new = s ++ replace_fuel (f - length s) r (y :: p) new.
Proof.
  intros Hs; revert f; induction Hs as [|x s Hx Hs IH]; intros f Hf; simpl.
  - rewrite Nat.sub_0_r; reflexivity.
  - destruct f as [|f]; [simpl in Hf; lia|].
    cbn [replace_fuel].
    replace (startswith (x :: s ++ r) (y :: p)) with false
      by (symmetry; cbn [startswith]; apply andb_false_iff; left; apply N.eqb_neq; exact Hx).
    rewrite IH by (simpl in Hf; lia); reflexivity.
Qed.

Lemma replace_fuel_hit (f : nat) (old r new : pystr) :
  old <> [] -> replace_fuel (S f) (old ++ r) old new = new ++ replace_fuel f r old new.
Proof.
  intros Hne; destruct old as [|y p]; [contradiction|].
  change ((y :: p) ++ r) with (y :: (p ++ r)); cbn [replace_fuel].
  change (y :: p ++ r) with ((y :: p) ++ r).
  rewrite startswith_app, skipn_app, Nat.sub_diag, skipn_all; reflexivity.
Qed.

Lemma contains_plain (s p : pystr) (y : N) :
  Forall (fun x => x <> y) s -> contains s (y :: p) = false.
Proof.
  induction 1 as [|x s Hx Hs IH]; simpl; [reflexivity|].
  rewrite IH, orb_false_r; apply andb_false_iff; left; apply N.eqb_neq; exact Hx.
Qed.

Lemma replace_fuel_none (f : nat) (s old new : pystr) :
  contains s old = false -> replace_fuel f s old new = s.
Proof.
  revert f; induction s as [|c s IH]; intros f H; destruct f as [|f]; try reflexivity.
  cbn [contains] in H; apply orb_false_iff in H as [H1 H2].
  cbn [replace_fuel]; rewrite H1, IH by exact H2; reflexivity.
Qed.

Lemma contains_app_r (s t p : pystr) : contains t p = true -> contains (s ++ t) p = true.
Proof.
  intros H; induction s as [|c s IH]; [exact H|].
  cbn [app contains]; rewrite IH, orb_true_r; reflexivity.
Qed.

Lemma contains_self_app (p r : pystr) : p <> [] -> contains (p ++ r) p = true.
Proof.
  intros Hne; destruct p as [|y p]; [contradiction|].
  change ((y :: p) ++ r) with (y :: (p ++ r)); cbn [contains].
  change (y :: p ++ r) with ((y :: p) ++ r); rewrite startswith_app; reflexivity.
Qed.

Lemma replace_fuel_join (segs : list pystr) (y : N) (p new : pystr) :
  Forall (Forall (fun x => x <> y)) segs ->
  forall f, (length (str_join (y :: p) segs) <= f)%nat ->
  replace_fuel f (str_join (y :: p) segs) (y :: p) new = str_join new segs.
Proof.
  induction 1 as [|s segs Hs Hsegs IH]; intros f Hf; [destruct f; reflexivity|].
  destruct segs as [|s2 segs].
  - apply replace_fuel_none, contains_plain, Hs.
  - change (str_join (y :: p) (s :: s2 :: segs))
      with (s ++ (y :: p) ++ str_join (y :: p) (s2 :: segs)) in *.
    change (str_join new (s :: s2 :: segs)) with (s ++ new ++ str_join new (s2 :: segs)).
    rewrite length_app in Hf.
    rewrite replace_fuel_plain by (exact Hs || lia).
    rewrite length_app in Hf; cbn [length] in Hf.
    destruct (f - length s)%nat as [|f'] eqn:Ef; [lia|].
    rewrite replace_fuel_hit by discriminate.
    rewrite IH; [reflexivity|lia].
Qed.

Lemma contains_join (segs : list pystr) (p : pystr) :
  p <> [] -> (2 <= length segs)%nat -> contains (str_join p segs) p = true.
Proof.
  intros Hp; destruct segs as [|s [|s2 segs]]; cbn [length]; intros Hl; [lia|lia|].
  change (str_join p (s :: s2 :: segs)) with (s ++ p ++ str_join p (s2 :: segs)).
  apply contains_app_r, contains_self_app, Hp.
Qed.

(** A template made of pieces without a brace, separated by [{caption}]:
    [save_caption] writes the pieces joined by the caption, so every
    placeholder is replaced. *)
Theorem template_placeholders_replaced (caption : pystr) (segs : list pystr) :
  Forall (Forall (fun x => x <> 123)) segs -> (2 <= length segs)%nat ->
  final_caption caption (Some (str_join (lit "{caption}") segs)) = str_join caption segs.
Proof.
  intros Hsegs Hl; unfold final_caption.
  rewrite contains_join by (discriminate || exact Hl).
  destruct (pystr_eqb (str_join (lit "{caption}") segs) []) eqn:E.
  { apply pystr_eqb_spec in E.
    assert (Hc := contains_join segs (lit "{caption}") ltac:(discriminate) Hl).
    rewrite E in Hc; discriminate. }
  cbn [negb andb]; unfold replace.
  apply (replace_fuel_join segs 123 (lit "caption}") caption Hsegs); exact (le_n _).
Qed.

Lemma template_placeholders_replaced_witness :
  final_caption (lit "a cat") (Some (lit "Photo of {caption}, {caption}!"))
  = lit "Photo of a cat, a cat!".
Proof.
  change (lit "Photo of {caption}, {caption}!")
    with (str_join (lit "{caption}") [lit "Photo of "; lit ", "; lit "!"]).
  rewrite (template_placeholders_replaced (lit "a cat") [lit "Photo of "; lit ", "; lit "!"]).
  - reflexivity.
  - repeat constructor; discriminate.
  - cbn; lia.
Defined.

(** ** Sidecars persist through a run *)

Lemma caption_exists_lookup (name : pystr) (es : list (pystr * node)) (n : node) :
  lookup_entry (with_suffix_txt name) es = Some n -> caption_exists name es = true.
Proof. unfold caption_exists; intros ->; reflexivity. Qed.

Lemma set_entry_keeps (p q : pystr) (n : node) (es : list (pystr * node)) :
  lookup_entry p es <> None -> lookup_entry p (set_entry q n es) <> None.
Proof.
  intros H; destruct (list_eq_dec N.eq_dec p q) as [->|Hne].
  - rewrite lookup_set_entry_same; discriminate.
  - rewrite lookup_set_entry_other by exact Hne; exact H.
Qed.

Lemma save_caption_keeps (fault : option write_fault) (image caption : pystr)
  (template : option pystr) (es : list (pystr * node)) (p : pystr) :
  lookup_entry p es <> None ->
  lookup_entry p (fst (save_caption fault image caption template es)) <> None.
Proof.
  intros H; unfold save_caption.
  destruct (lookup_entry (with_suffix_txt image) es) as [[k|]|];
    try exact H;
    destruct fault as [[ex|k' ex]|];
    repeat match goal with
           | |- context [if ?b then _ else _] => destruct b
           end;
    cbn [fst]; try exact H; apply set_entry_keeps, H.
Qed.

Lemma process_image_keeps (a : args) (e : env) (total : nat) (st : batch_state)
  (i : nat) (name p : pystr) :
  lookup_entry p (entries st) <> None ->
  lookup_entry p (entries (process_image a e total st i name)) <> None.
Proof.
  intros H; unfold process_image.
  destruct (negb (overwrite a) && caption_exists name (entries st)); [unfold_setters; exact H|].
  destruct (generate_caption_for_image _ _ _ _ _) as [v cmds].
  destruct v as [| | |c| |]; try (unfold_setters; exact H).
  destruct (caption_ok c); [|unfold_setters; exact H].
  unfold_setters.
  destruct (save_caption _ _ _ _ _) as [es raised] eqn:Hsave.
  assert (Hk := save_caption_keeps (save_fault e name) name c (template a) (entries st) p H).
  rewrite Hsave in Hk; cbn [fst] in Hk.
  destruct raised; unfold_setters; exact Hk.
Qed.

Lemma caption_exists_present (name : pystr) (es : list (pystr * node)) :
  caption_exists name es = true <-> lookup_entry (with_suffix_txt name) es <> None.
Proof.
  unfold caption_exists; destruct (lookup_entry _ _); split; congruence.
Qed.

Lemma caption_loop_keeps (a : args) (e : env) (total : nat) (names : list pystr) :
  forall st i name,
    caption_exists name (entries st) = true ->
    caption_exists name (entries (caption_loop a e total st i names)) = true.
Proof.
  induction names as [|n names IH]; intros st i name H; [exact H|].
  cbn [caption_loop]; apply IH.
  apply caption_exists_present; apply caption_exists_present in H.
  apply process_image_keeps, H.
Qed.

Lemma caption_loop_skipped_grows (a : args) (e : env) (total : nat) (names : list pystr) :
  forall st i n, In n (skipped_files st) ->
    In n (skipped_files (caption_loop a e total st i names)).
Proof.
  induction names as [|m names IH]; intros st i n H; [exact H|].
  cbn [caption_loop]; apply IH.
  destruct (process_image_lists a e total st i m) as [[_ [-> _]]|[[_ [-> _]]|[_ [-> _]]]];
    try exact H; apply in_or_app; left; exact H.
Qed.

(** With overwrite off, a name whose sidecar exists when the loop starts
    is skipped. *)
Lemma caption_loop_skips_captioned (a : args) (e : env) (total : nat) (names : list pystr) :
  overwrite a = false ->
  forall st i n, In n names -> caption_exists n (entries st) = true ->
    In n (skipped_files (caption_loop a e total st i names)).
Proof.
  intros Hov; induction names as [|m names IH]; intros st i n Hin Hex; [destruct Hin|].
  cbn [caption_loop].
  destruct Hin as [<-|Hin].
  - apply caption_loop_skipped_grows.
    rewrite process_image_skip by (unfold skips; rewrite Hov, Hex; reflexivity).
    unfold_setters; apply in_or_app; right; left; reflexivity.
  - apply IH; [exact Hin|].
    apply caption_exists_present; apply caption_exists_present in Hex.
    apply process_image_keeps, Hex.
Qed.

Lemma process_image_processed_captioned (a : args) (e : env) (total : nat)
  (st : batch_state) (i : nat) (name : pystr) :
  (forall n, In n (processed_files st) -> caption_exists n (entries st) = true) ->
  let st' := process_image a e total st i name in
  forall n, In n (processed_files st') -> caption_exists n (entries st') = true.
Proof.
  intros Hinv; cbv zeta; intros n Hn.
  assert (Hold : In n (processed_files st) ->
                 caption_exists n (entries (process_image a e total st i name)) = true).
  { intros H; apply caption_exists_present; apply Hinv, caption_exists_present in H.
    apply process_image_keeps, H. }
  destruct (process_image_lists a e total st i name) as [[Hp _]|[[Hp _]|[Hp _]]];
    rewrite Hp in Hn; try (apply Hold, Hn).
  apply in_app_or in Hn as [Hn|[<-|[]]]; [apply Hold, Hn|].
  destruct (skips a st name) eqn:Hs.
  { exfalso; rewrite process_image_skip in Hp by exact Hs; revert Hp; unfold_setters.
    apply app_one_neq. }
  pose proof (process_image_processed a e total st i name Hs) as [Hiff Hside]; cbv zeta in *.
  destruct (proj1 Hiff Hp) as [c [Hc _]].
  eapply caption_exists_lookup, (Hside c Hp Hc).
Qed.

Lemma caption_loop_processed_captioned (a : args) (e : env) (total : nat)
  (names : list pystr) :
  forall st i,
    (forall n, In n (processed_files st) -> caption_exists n (entries st) = true) ->
    let st' := caption_loop a e total st i names in
    forall n, In n (processed_files st') -> caption_exists n (entries st') = true.
Proof.
  induction names as [|m names IH]; intros st i Hinv; [exact Hinv|].
  cbn [caption_loop]; apply IH, process_image_processed_captioned, Hinv.
Qed.

Lemma main_final_run (a : args) (fs : folder_state) (e : env) (st : batch_state) :
  final_run (main a fs e) = Some st ->
  exists image_files ev,
    find_image_files (source_folder a) fs = Ok image_files /\
    st = caption_loop a e (length image_files) (initial_state (folder_entries fs) ev) 0
           image_files.
Proof.
  unfold main; destruct (args_valid a); cbn [negb]; [|discriminate].
  destruct (find_image_files (source_folder a) fs) as [[|i0 imgs]|ex]; cbn [final_run];
    try discriminate.
  intros H; injection H as <-; do 2 eexists; split; reflexivity.
Qed.

(** Sidecars and a second run: after a run, every image in
    [processed_files] has a sidecar in the folder; in a run with overwrite
    off, every discovered image whose sidecar exists when the run starts
    is skipped (so a second run without [--overwrite] over the folder a run
    left skips every image that run processed). *)
Theorem rerun_skips_captioned :
  (forall a fs e st,
     final_run (main a fs e) = Some st ->
     forall n, In n (processed_files st) -> caption_exists n (entries st) = true) /\
  (forall a fs e st image_files,
     overwrite a = false ->
     find_image_files (source_folder a) fs = Ok image_files ->
     final_run (main a fs e) = Some st ->
     forall n, In n image_files -> caption_exists n (folder_entries fs) = true ->
     In n (skipped_files st)).
Proof.
  split.
  - intros a fs e st Hrun.
    destruct (main_final_run a fs e st Hrun) as [imgs [ev [_ ->]]].
    apply caption_loop_processed_captioned; intros n [].
  - intros a fs e st imgs Hov Hfind Hrun n Hin Hex.
    destruct (main_final_run a fs e st Hrun) as [imgs' [ev [Hfind' ->]]].
    rewrite Hfind in Hfind'; injection Hfind' as <-.
    apply caption_loop_skips_captioned; assumption.
Qed.

Lemma rerun_skips_captioned_witness :
  (exists st,
     final_run (main (demo_args "blip" false) (Dir [(lit "cat.jpg", NFile [])])
                 (demo_env (lit "a cat"))) = Some st /\
     In (lit "cat.jpg") (processed_files st) /\
     caption_exists (lit "cat.jpg") (entries st) = true) /\
  (exists st,
     final_run (main (demo_args "blip" false)
                 (Dir [(lit "cat.jpg", NFile []); (lit "cat.txt", NFile (lit "a cat"))])
                 (demo_env (lit "a dog"))) = Some st /\
     In (lit "cat.jpg") (skipped_files st)).
Proof.
  split.
  - destruct (final_run (main (demo_args "blip" false) (Dir [(lit "cat.jpg", NFile [])])
                           (demo_env (lit "a cat")))) as [st|] eqn:E;
      [|vm_compute in E; discriminate].
    assert (Hp : In (lit "cat.jpg") (processed_files st)).
    { pose proof E as E'; vm_compute in E'; injection E' as <-; vm_compute; left; reflexivity. }
    exists st; split; [reflexivity|split; [exact Hp|]].
    exact (proj1 rerun_skips_captioned _ _ _ st E _ Hp).
  - destruct (final_run (main (demo_args "blip" false)
                 (Dir [(lit "cat.jpg", NFile []); (lit "cat.txt", NFile (lit "a cat"))])
                 (demo_env (lit "a dog")))) as [st|] eqn:E;
      [|vm_compute in E; discriminate].
    exists st; split; [reflexivity|].
    exact (proj2 rerun_skips_captioned (demo_args "blip" false)
             (Dir [(lit "cat.jpg", NFile []); (lit "cat.txt", NFile (lit "a cat"))])
             (demo_env (lit "a dog")) st [lit "cat.jpg"] eq_refl eq_refl E
             (lit "cat.jpg") (or_introl eq_refl) eq_refl).
Defined.

(** ** The events printed by a run *)

(** The filenames of the [file_processed] events, and of the progress
    events carrying [current]/[total]/[filename], in printing order. *)
Definition processed_event_names (evs : list event) : list pystr :=
  flat_map (fun ev => match ev with EvFileProcessed f _ => [f] | _ => [] end) evs.

Definition dispatch_event_names (evs : list event) : list pystr :=
  flat_map (fun ev => match ev with EvProgressAt _ _ _ f => [f] | _ => [] end) evs.

(** The events of one iteration, by its outcome. *)
Lemma process_image_events (a : args) (e : env) (total : nat) (st : batch_state)
  (i : nat) (name : pystr) :
  let st' := process_image a e total st i name in
  (exists m, output st' = output st ++ [EvProgress m] /\
     processed_files st' = processed_files st /\ failed_files st' = failed_files st) \/
  (exists m, output st' = output st ++ [EvProgressAt m (S i) total name] /\
     processed_files st' = processed_files st /\ failed_files st' = failed_files st ++ [name]) \/
  (exists m c, output st' = output st ++ [EvProgressAt m (S i) total name;
                                          EvFileProcessed name (truncate_caption c)] /\
     fst (generated a e name) = VStr c /\
     processed_files st' = processed_files st ++ [name] /\ failed_files st' = failed_files st).
Proof.
  unfold process_image, generated.
  destruct (negb (overwrite a) && caption_exists name (entries st)).
  { left; eexists; unfold_setters; auto. }
  destruct (generate_caption_for_image _ _ _ _ _) as [v cmds]; cbn [fst].
  destruct v as [| | |c| |];
    try (right; left; eexists; unfold_setters; auto; fail).
  destruct (caption_ok c); [|right; left; eexists; unfold_setters; auto].
  destruct (save_caption _ _ _ _ _) as [es [ex|]].
  - right; left; eexists; unfold_setters; auto.
  - right; right; eexists; exists c; unfold_setters; rewrite <- app_assoc.
    split; [reflexivity|auto].
Qed.

Definition fp_captions_ok (a : args) (e : env) (evs : list event) : Prop :=
  forall f cap, In (EvFileProcessed f cap) evs ->
    exists c, fst (generated a e f) = VStr c /\ cap = truncate_caption c.

Lemma caption_loop_events (a : args) (e : env) (total : nat) (names : list pystr) :
  forall st i,
    processed_event_names (output st) = processed_files st ->
    Permutation (dispatch_event_names (output st)) (processed_files st ++ failed_files st) ->
    fp_captions_ok a e (output st) ->
    let st' := caption_loop a e total st i names in
    processed_event_names (output st') = processed_files st' /\
    Permutation (dispatch_event_names (output st')) (processed_files st' ++ failed_files st') /\
    fp_captions_ok a e (output st').
Proof.
  induction names as [|n names IH]; intros st i H1 H2 H3; [auto|].
  cbn [caption_loop]; apply IH;
    destruct (process_image_events a e total st i n)
      as [[m [Ho [Hp Hf]]]|[[m [Ho [Hp Hf]]]|[m [c [Ho [Hc [Hp Hf]]]]]]];
    rewrite Ho, ?Hp, ?Hf; unfold processed_event_names, dispatch_event_names, fp_captions_ok in *;
    rewrite ?flat_map_app; cbn [flat_map app]; rewrite ?app_nil_r.
  all: try exact H1.
  all: try (rewrite H1; reflexivity).
  all: try exact H2.
  all: try (rewrite H2, <- app_assoc; reflexivity).
  all: try (intros f cap Hin; apply in_app_or in Hin as [Hin|[Hin|[Hin|[]]]];
            [exact (H3 f cap Hin)|discriminate|injection Hin as <- <-; eauto]; fail).
  all: try (intros f cap Hin; apply in_app_or in Hin as [Hin|[Hin|[]]];
            [exact (H3 f cap Hin)|discriminate]; fail).
  rewrite H2, <- !app_assoc.
  apply Permutation_app_head; simpl; apply Permutation_sym, Permutation_cons_append.
Qed.

Lemma main_events_run (a : args) (fs : folder_state) (e : env) (st : batch_state) :
  final_run (main a fs e) = Some st ->
  exists ev2 ev3, events (main a fs e) = output st ++ [ev2; ev3] /\
    is_summary ev2 = true /\ (exists m, ev3 = EvProgress m) /\
    processed_event_names [ev2; ev3] = [] /\ dispatch_event_names [ev2; ev3] = [] /\
    processed_event_names (output st) = processed_files st /\
    Permutation (dispatch_event_names (output st)) (processed_files st ++ failed_files st) /\
    fp_captions_ok a e (output st).
Proof.
  unfold main; destruct (args_valid a); cbn [negb]; [|discriminate].
  destruct (find_image_files (source_folder a) fs) as [[|i0 imgs]|ex]; cbn [final_run];
    try discriminate.
  intros H; injection H as <-; cbn [events].
  set (st0 := initial_state _ _).
  destruct (caption_loop_events a e (length (i0 :: imgs)) (i0 :: imgs) st0 0) as [A [B C]].
  - reflexivity.
  - reflexivity.
  - unfold st0, initial_state, fp_captions_ok; cbn [output In]; intros f cap [H|[]]; discriminate.
  - do 2 eexists; split; [reflexivity|].
    split; [reflexivity|split; [eexists; reflexivity|]].
    do 2 (split; [reflexivity|]).
    exact (conj A (conj B C)).
Qed.

(** The [file_processed] events of a run name exactly the processed
    images, in the order they were processed; the progress events with
    [current]/[total] name exactly the dispatched images, i.e. the
    processed and the failed ones (skipped images get only a plain
    progress message). *)
Theorem run_events_match_lists (a : args) (fs : folder_state) (e : env) (st : batch_state) :
  final_run (main a fs e) = Some st ->
  processed_event_names (events (main a fs e)) = processed_files st /\
  Permutation (dispatch_event_names (events (main a fs e)))
              (processed_files st ++ failed_files st).
Proof.
  intros Hrun.
  destruct (main_events_run a fs e st Hrun)
    as [ev2 [ev3 [Hev [_ [_ [Hp2 [Hd2 [Hp [Hd _]]]]]]]]].
  rewrite Hev; unfold processed_event_names, dispatch_event_names in *.
  rewrite !flat_map_app, Hp2, Hd2, !app_nil_r; split; [exact Hp|exact Hd].
Qed.

Lemma truncate_caption_bounds (c : pystr) :
  (length (truncate_caption c) <= 103)%nat /\
  firstn 100 (truncate_caption c) = firstn 100 c /\
  ((length c <= 100)%nat -> truncate_caption c = c).
Proof.
  unfold truncate_caption.
  destruct (100 <? length c)%nat eqn:E.
  - apply Nat.ltb_lt in E.
    rewrite length_app, length_firstn, firstn_app, firstn_firstn, length_firstn.
    replace (100 - Nat.min 100 (length c))%nat with 0%nat by lia.
    rewrite firstn_O, app_nil_r, Nat.min_id.
    split; [cbn [length lit list_ascii_of_string map]; lia|split; [reflexivity|lia]].
  - apply Nat.ltb_ge in E; split; [lia|split; reflexivity].
Qed.

(** Every [file_processed] event of a run carries the caption the invoker
    returned for that file, cut to its first 100 characters followed by
    "..." when it is longer: at most 103 characters, the first 100 of
    them the caption's, and the caption itself when it has at most 100. *)
Theorem file_processed_caption_truncated (a : args) (fs : folder_state) (e : env)
  (f cap : pystr) :
  In (EvFileProcessed f cap) (events (main a fs e)) ->
  exists c, fst (generated a e f) = VStr c /\ cap = truncate_caption c /\
    (length cap <= 103)%nat /\ firstn 100 cap = firstn 100 c /\
    ((length c <= 100)%nat -> cap = c).
Proof.
  intros Hin.
  destruct (final_run (main a fs e)) as [st|] eqn:Hrun.
  - destruct (main_events_run a fs e st Hrun)
      as [ev2 [ev3 [Hev [H2 [H3 [_ [_ [_ [_ Hok]]]]]]]]].
    rewrite Hev in Hin; apply in_app_or in Hin as [Hin|[Hin|[Hin|[]]]].
    + destruct (Hok f cap Hin) as [c [Hc ->]].
      destruct (truncate_caption_bounds c) as [B1 [B2 B3]].
      exists c; auto.
    + subst ev2; discriminate.
    + destruct H3 as [m H3]; subst ev3; discriminate.
  - exfalso; revert Hin Hrun; unfold main.
    destruct (args_valid a); cbn [negb]; [|cbn; intros []].
    destruct (find_image_files (source_folder a) fs) as [[|i0 imgs]|ex];
      cbn [events final_run]; [intros [H|[]]; discriminate|intros _; discriminate|].
    intros [H|[]]; discriminate.
Qed.

Lemma run_events_match_lists_witness :
  exists st,
    final_run (main (demo_args "blip" false)
                (Dir [(lit "a.jpg", NFile []); (lit "b.png", NFile []); (lit "b.txt", NFile [])])
                (demo_env (lit "a cat"))) = Some st /\
    processed_event_names
      (events (main (demo_args "blip" false)
                 (Dir [(lit "a.jpg", NFile []); (lit "b.png", NFile []); (lit "b.txt", NFile [])])
                 (demo_env (lit "a cat")))) = processed_files st.
Proof.
  destruct (final_run (main (demo_args "blip" false)
                (Dir [(lit "a.jpg", NFile []); (lit "b.png", NFile []); (lit "b.txt", NFile [])])
                (demo_env (lit "a cat")))) as [st|] eqn:E; [|vm_compute in E; discriminate].
  exists st; split; [reflexivity|].
  exact (proj1 (run_events_match_lists _ _ _ st E)).
Defined.

(** A caption of 118 characters. *)
Definition long_caption : pystr :=
  lit "a long caption that goes on and on about the cat on the sofa, its fur, its eyes, the light, the room and the afternoon".

Lemma file_processed_caption_truncated_witness :
  In (EvFileProcessed (lit "cat.jpg") (truncate_caption long_caption))
     (events (main (demo_args "blip" false) (Dir [(lit "cat.jpg", NFile [])])
                (demo_env long_caption))) /\
  exists c, fst (generated (demo_args "blip" false) (demo_env long_caption) (lit "cat.jpg"))
            = VStr c /\
    truncate_caption long_caption = truncate_caption c /\
    (length (truncate_caption long_caption) <= 103)%nat /\
    firstn 100 (truncate_caption long_caption) = firstn 100 c /\
    ((length c <= 100)%nat -> truncate_caption long_caption = c).
Proof.
  assert (Hin : In (EvFileProcessed (lit "cat.jpg") (truncate_caption long_caption))
     (events (main (demo_args "blip" false) (Dir [(lit "cat.jpg", NFile [])])
                (demo_env long_caption)))).
  { vm_compute; repeat (first [left; reflexivity | right]). }
  split; [exact Hin|].
  exact (file_processed_caption_truncated _ _ _ _ _ Hin).
Defined.

(** ** A backend that fails *)

(** A backend process that exits with a non-zero status within the time
    limit makes the invoker return "Error: " followed by its stripped
    stderr, or "Unknown error" when that is empty (what it printed on
    stdout is discarded); one that cannot be started (an exception from
    [subprocess.run]) gives "Error: " followed by the exception's message.
    Either way the image is failed, and no sidecar is written or changed. *)
Theorem backend_failure_error_text :
  (forall e image_str m s mt cmd d rc out err,
     build_cmd e image_str m s mt = Some cmd ->
     backend e cmd = PExit d rc out err -> (d <= 120)%nat -> rc <> 0%Z ->
     generate_caption_for_image e image_str m s mt
     = (VStr (lit "Error: " ++ (if pystr_eqb (strip err) [] then lit "Unknown error"
                                 else strip err)), [cmd])) /\
  (forall e image_str m s mt cmd ex,
     build_cmd e image_str m s mt = Some cmd ->
     backend e cmd = PRaises ex ->
     generate_caption_for_image e image_str m s mt
     = (VStr (lit "Error: " ++ str_exn ex), [cmd])) /\
  (forall a e total st i name cmd,
     skips a st name = false ->
     build_cmd e (path_join (source_folder a) name) (model a) (style a) (max_tokens a)
     = Some cmd ->
     (exists ex, backend e cmd = PRaises ex) \/
     (exists d rc out err, backend e cmd = PExit d rc out err /\ (d <= 120)%nat /\ rc <> 0%Z) ->
     let st' := process_image a e total st i name in
     failed_files st' = failed_files st ++ [name] /\
     entries st' = entries st /\ save_calls st' = save_calls st).
Proof.
  assert (H1 : forall e image_str m s mt cmd d rc out err,
     build_cmd e image_str m s mt = Some cmd ->
     backend e cmd = PExit d rc out err -> (d <= 120)%nat -> rc <> 0%Z ->
     generate_caption_for_image e image_str m s mt
     = (VStr (lit "Error: " ++ (if pystr_eqb (strip err) [] then lit "Unknown error"
                                 else strip err)), [cmd])).
  { intros e image_str m s mt cmd d rc out err Hcmd Hb Hd Hrc.
    unfold generate_caption_for_image, subprocess_run; rewrite Hcmd, Hb.
    apply Nat.ltb_ge in Hd; rewrite Hd.
    apply Z.eqb_neq in Hrc; rewrite Hrc; reflexivity. }
  assert (H2 : forall e image_str m s mt cmd ex,
     build_cmd e image_str m s mt = Some cmd ->
     backend e cmd = PRaises ex ->
     generate_caption_for_image e image_str m s mt
     = (VStr (lit "Error: " ++ str_exn ex), [cmd])).
  { intros e image_str m s mt cmd ex Hcmd Hb.
    unfold generate_caption_for_image, subprocess_run; rewrite Hcmd, Hb; reflexivity. }
  split; [exact H1|split; [exact H2|]].
  intros a e total st i name cmd Hs Hcmd Hfail; cbv zeta.
  assert (Hg : exists msg, fst (generated a e name) = VStr (lit "Error: " ++ msg)).
  { unfold generated; destruct Hfail as [[ex Hb]|[d [rc [out [err [Hb [Hd Hrc]]]]]]].
    - rewrite (H2 _ _ _ _ _ _ _ Hcmd Hb); eexists; reflexivity.
    - rewrite (H1 _ _ _ _ _ _ _ _ _ _ Hcmd Hb Hd Hrc); eexists; reflexivity. }
  destruct Hg as [msg Hg].
  pose proof (process_image_rejected a e total st i name Hs) as Hrej; cbv zeta in Hrej.
  destruct Hrej as [Hf [_ [_ [He Hc]]]];
    [rewrite Hg; intros c Hc; injection Hc as <-; apply caption_ok_error_prefix|].
  auto.
Qed.

Lemma backend_failure_error_text_witness :
  generate_caption_for_image
    {| executable := lit "/usr/bin/python3"; script_dir := lit "/opt/fluxyoga/scripts";
       backend := fun _ => PExit 2 1 (lit "Error: Image file not found: x.jpg") (lit " ");
       save_fault := fun _ => None;
       json_depth := 1000 |}
    (lit "photos/x.jpg") (lit "florence-2") (lit "detailed") 150
  = (VStr (lit "Error: Unknown error"),
     [[lit "/usr/bin/python3"; lit "/opt/fluxyoga/scripts/generate_florence2_caption.py";
       lit "--image_path"; lit "photos/x.jpg"; lit "--model_id"; lit "microsoft/Florence-2-base";
       lit "--prompt"; lit "<MORE_DETAILED_CAPTION>"]]).
Proof.
  apply (proj1 backend_failure_error_text _ _ _ _ _ _ 2%nat 1%Z
           (lit "Error: Image file not found: x.jpg") (lit " ")); [reflexivity|reflexivity|lia|discriminate].
Defined.

(** ** Captions are stripped *)

Lemma lstrip_head (s : pystr) (c : N) (r : pystr) :
  lstrip s = c :: r -> py_isspace c = false.
Proof.
  induction s as [|x s IH]; cbn [lstrip]; [discriminate|].
  destruct (py_isspace x) eqn:E; [exact IH|intros H; injection H as <- _; exact E].
Qed.

Lemma lstrip_snoc (u : pystr) (y : N) :
  py_isspace y = false -> exists w, lstrip (u ++ [y]) = w ++ [y].
Proof.
  intros Hy; induction u as [|x u IH]; cbn [app lstrip].
  - rewrite Hy; exists []; reflexivity.
  - destruct (py_isspace x); [exact IH|exists (x :: u); reflexivity].
Qed.

Lemma strip_ends (s : pystr) :
  (forall c r, strip s = c :: r -> py_isspace c = false) /\
  (forall r c, strip s = r ++ [c] -> py_isspace c = false).
Proof.
  unfold strip; split.
  - intros c r H.
    destruct (lstrip s) as [|y l] eqn:E; [discriminate|].
    assert (Hy : py_isspace y = false) by exact (lstrip_head s y l E).
    cbn [rev] in H.
    destruct (lstrip_snoc (rev l) y Hy) as [w Hw]; rewrite Hw, rev_app_distr in H.
    cbn [rev app] in H; injection H as <- _; exact Hy.
  - intros r c H.
    apply (f_equal (@rev N)) in H; rewrite rev_involutive, rev_app_distr in H.
    cbn [rev app] in H; exact (lstrip_head _ c (rev r) H).
Qed.

(** A backend other than Florence-2 that exits with 0 within the time
    limit: the caption is its stdout stripped, which neither starts nor
    ends with a whitespace character. *)
Theorem plain_backend_caption_stripped (e : env) (image_str m s : pystr) (mt : Z)
  (cmd : list pystr) (d : nat) (out err : pystr) :
  build_cmd e image_str m s mt = Some cmd ->
  pystr_eqb m (lit "florence-2") = false ->
  backend e cmd = PExit d 0 out err -> (d <= 120)%nat ->
  generate_caption_for_image e image_str m s mt = (VStr (strip out), [cmd]) /\
  (forall c r, strip out = c :: r -> py_isspace c = false) /\
  (forall r c, strip out = r ++ [c] -> py_isspace c = false).
Proof.
  intros Hcmd Hm Hb Hd; split; [|apply strip_ends].
  unfold generate_caption_for_image, subprocess_run; rewrite Hcmd, Hb.
  apply Nat.ltb_ge in Hd; rewrite Hd; cbn [Z.eqb]; rewrite Hm; reflexivity.
Qed.

Lemma plain_backend_caption_stripped_witness :
  generate_caption_for_image (demo_env (lit "  a cat on a sofa" ++ [10]))
    (lit "photos/cat.jpg") (lit "blip") (lit "detailed") 150
  = (VStr (lit "a cat on a sofa"),
     [[lit "/usr/bin/python3"; lit "/opt/fluxyoga/scripts/generate_blip_caption.py";
       lit "--image_path"; lit "photos/cat.jpg"; lit "--model_type"; lit "base";
       lit "--max_tokens"; lit "150"; lit "--style"; lit "detailed"]]).
Proof.
  exact (proj1 (plain_backend_caption_stripped (demo_env (lit "  a cat on a sofa" ++ [10]))
    (lit "photos/cat.jpg") (lit "blip") (lit "detailed") 150
    [lit "/usr/bin/python3"; lit "/opt/fluxyoga/scripts/generate_blip_caption.py";
     lit "--image_path"; lit "photos/cat.jpg"; lit "--model_type"; lit "base";
     lit "--max_tokens"; lit "150"; lit "--style"; lit "detailed"]
    3 (lit "  a cat on a sofa" ++ [10]) [] eq_refl eq_refl eq_refl ltac:(lia))).
Defined.

(** ** Florence-2 output that parses but holds no usable caption *)

(** When the Florence-2 process exits with 0 within the time limit and
    [json.loads] returns a value for its stripped output, but either not
    an object (a list, a
    string, a number, true/false/null: [.get] raises [AttributeError]) or
    an object whose "caption" value (the last one, when repeated) is not a
    string, the image is failed and nothing is saved. *)
Theorem florence_unusable_json_fails (a : args) (e : env) (total : nat) (st : batch_state)
  (i : nat) (name : pystr) (cmd : list pystr) (d : nat) (out err : pystr) (v : pyval) :
  model a = lit "florence-2" -> skips a st name = false ->
  build_cmd e (path_join (source_folder a) name) (model a) (style a) (max_tokens a)
  = Some cmd ->
  backend e cmd = PExit d 0 out err -> (d <= 120)%nat ->
  json_loads (Pos.to_nat (json_depth e)) (strip out) = JOk v ->
  (match v with
   | VDict kvs => forall c, dict_get kvs (lit "caption") (VStr (lit "No caption generated"))
                            <> VStr c
   | _ => True
   end) ->
  let st' := process_image a e total st i name in
  failed_files st' = failed_files st ++ [name] /\
  processed_files st' = processed_files st /\
  entries st' = entries st /\ save_calls st' = save_calls st.
Proof.
  intros Hm Hs Hcmd Hb Hd Hj Hv; cbv zeta.
  assert (Hg : fst (generated a e name) = florence_caption (Pos.to_nat (json_depth e)) out).
  { unfold generated, generate_caption_for_image, subprocess_run.
    rewrite Hcmd, Hb; apply Nat.ltb_ge in Hd; rewrite Hd; cbn [Z.eqb].
    rewrite Hm; reflexivity. }
  pose proof (process_image_rejected a e total st i name Hs) as Hrej; cbv zeta in Hrej.
  destruct Hrej as [Hf [Hp [_ [He Hc]]]]; [|auto].
  rewrite Hg; unfold florence_caption; rewrite Hj.
  destruct v as [| | | | |kvs]; intros c Hc;
    try (unfold error_prefix in Hc; injection Hc as <-; apply caption_ok_error_prefix).
  exfalso; exact (Hv c Hc).
Qed.

(** The text [{"caption": null}]. *)
Definition null_caption_json : pystr :=
  lit "{" ++ [34] ++ lit "caption" ++ [34] ++ lit ": null}".

Lemma florence_unusable_json_fails_witness :
  failed_files (process_image florence_args (demo_env null_caption_json) 1
                  (initial_state [(lit "cat.jpg", NFile [])] (EvProgress [])) 0 (lit "cat.jpg"))
  = [lit "cat.jpg"].
Proof.
  exact (proj1 (florence_unusable_json_fails florence_args (demo_env null_caption_json) 1
    (initial_state [(lit "cat.jpg", NFile [])] (EvProgress [])) 0 (lit "cat.jpg")
    _ 3 null_caption_json [] (VDict [(lit "caption", VNone)])
    eq_refl eq_refl eq_refl eq_refl ltac:(lia) ltac:(vm_compute; reflexivity)
    ltac:(intros c; vm_compute; discriminate))).
Defined.

(** ** [json.dumps] of strings, and the output of the Florence-2 script *)

(** A hexadecimal digit as [json] writes it (lower case). *)
Definition hex_digit (n : N) : N := if n <? 10 then 48 + n else 87 + n.

(** [ESCAPE_DCT] of [json.encoder]: the text written for one character
    with [ensure_ascii=False]. *)
Definition escape_char (c : N) : pystr :=
  if c =? 34 then [92; 34]
  else if c =? 92 then [92; 92]
  else if c =? 8 then [92; 98]
  else if c =? 12 then [92; 102]
  else if c =? 10 then [92; 110]
  else if c =? 13 then [92; 114]
  else if c =? 9 then [92; 116]
  else if c <? 32 then [92; 117; 48; 48; hex_digit (c / 16); hex_digit (c mod 16)]
  else [c].

(** [encode_basestring]: [json.dumps] of a [str] with [ensure_ascii=False]. *)
Definition encode_basestring (s : pystr) : pystr := [34] ++ flat_map escape_char s ++ [34].



(** Reading back the text [json] writes for one character. *)
Lemma scanstring_escape_char (c : N) (rest acc : pystr) :
  scanstring (escape_char c ++ rest) acc = scanstring rest (c :: acc).
Proof.
  destruct (c <? 32) eqn:Hc.
  - apply N.ltb_lt in Hc.
    assert (Hk : exists k, c = N.of_nat k /\ (k < 32)%nat)
      by (exists (N.to_nat c); split; [rewrite N2Nat.id; reflexivity|lia]).
    destruct Hk as [k [-> Hk]].
    do 32 (destruct k as [|k]; [reflexivity|]); lia.
  - apply N.ltb_ge in Hc.
    unfold escape_char.
    destruct (c =? 34) eqn:E34; [apply N.eqb_eq in E34; subst c; reflexivity|].
    destruct (c =? 92) eqn:E92; [apply N.eqb_eq in E92; subst c; reflexivity|].
    replace (c =? 8) with false by (symmetry; apply N.eqb_neq; lia).
    replace (c =? 12) with false by (symmetry; apply N.eqb_neq; lia).
    replace (c =? 10) with false by (symmetry; apply N.eqb_neq; lia).
    replace (c =? 13) with false by (symmetry; apply N.eqb_neq; lia).
    replace (c =? 9) with false by (symmetry; apply N.eqb_neq; lia).
    replace (c <? 32) with false by (symmetry; apply N.ltb_ge; lia).
    cbn [app scanstring]; rewrite E34, E92.
    replace (c <=? 31) with false by (symmetry; apply N.leb_gt; lia).
    reflexivity.
Qed.

Lemma scanstring_encoded (s r acc : pystr) :
  scanstring ((flat_map escape_char s ++ [34]) ++ r) acc = Some (rev acc ++ s, r).
Proof.
  revert acc; induction s as [|c s IH]; intros acc.
  - cbn; rewrite app_nil_r; reflexivity.
  - cbn [flat_map]; rewrite <- !app_assoc, scanstring_escape_char, app_assoc, IH.
    cbn [rev]; rewrite <- app_assoc; reflexivity.
Qed.

(** [json.loads(json.dumps(s, ensure_ascii=False)) == s] for every [str]
    [s]: the escapes written for quotes, backslashes and control
    characters are decoded back, and every other character is kept
    (whatever the recursion budget: a string opens no array or object). *)
Theorem json_string_roundtrip (depth : nat) (s : pystr) :
  json_loads depth (encode_basestring s) = JOk (VStr s).
Proof.
  unfold json_loads, encode_basestring; cbn [app length].
  cbn [N.eqb Pos.eqb skip_ws is_ws orb].
  change (skip_ws (34 :: flat_map escape_char s ++ [34])) with (34 :: flat_map escape_char s ++ [34]).
  cbn [scan_once N.eqb Pos.eqb].
  rewrite <- (app_nil_r (flat_map escape_char s ++ [34])), scanstring_encoded; reflexivity.
Qed.


















